(** * EquirectTile: tile addressing for a tiled equirectangular panorama

    A shallow embedding of [src/geometries/EquirectTile.js]: the level
    hierarchy, the tile address with its quadtree navigation, the neighbour
    resolver with its cache, the sphere projection and the closest-tile
    locator, followed by the properties stated about them.

    Numbers.  Level dimensions are integers ([Z]).  The code is embedded
    twice.

    In the modules [EquirectTile] and [EquirectTileGeometry] every
    arithmetic operation is exact: tile coordinates and the subdivision
    ratios are rationals ([Q], compared with [==]), angles and the
    trigonometric projection are real numbers ([R]).  This is what the code
    computes as long as its numbers are integers, or are only compared
    with integers at a distance that rounding does not bridge: the
    neighbour resolver, the enumeration of a level, the tile sizes, the
    ranges of columns and rows, the quadtree between levels whose tile
    counts are multiples of one another.  Division agrees with JavaScript
    only for a non-zero divisor, and the theorems that divide assume
    positive level dimensions.

    In the module [Double] the quadtree navigation and the closest-tile
    locator are embedded once more over IEEE binary64 numbers, operation
    by operation.  The statements whose truth depends on rounding, on an
    infinite loop bound or on NaN are made there. *)

From Stdlib Require Import ZArith QArith Qround Qreals Reals.
From Stdlib Require Import Lia Lqa Lra List String Bool DecimalString.
From Stdlib Require Import Floats Uint63.
Import ListNotations.

Open Scope Z_scope.

(** ** JavaScript primitives *)

Module Js.

(** What a call evaluates to: a thrown error or a returned value. *)
Inductive Error : Type :=
| JsError (message : string)     (* new Error(message) *)
| TypeError.                     (* a method called on undefined *)

Inductive completion (A : Type) : Type :=
| Throw (e : Error)
| Return (a : A).
Arguments Throw {A} e.
Arguments Return {A} a.

Definition bind {A B : Type} (c : completion A) (k : A -> completion B)
  : completion B :=
  match c with
  | Throw e => Throw e
  | Return a => k a
  end.

(** The result of [Math.max] or of a numeric coercion. *)
Inductive number : Type :=
| Finite (n : Z)
| NaN.

(** The values [Math.max] is applied to in this file: a number, or a
    function object (a method read from an object without calling it). *)
Inductive value : Type :=
| Num (n : number)
| Fun (name : string).

Definition ToNumber (v : value) : number :=
  match v with
  | Num n => n
  | Fun _ => NaN
  end.

Definition max2 (a b : number) : number :=
  match a, b with
  | Finite m, Finite n => Finite (Z.max m n)
  | _, _ => NaN
  end.

(** [Math.max(first, ...rest)]: every argument is coerced with [ToNumber];
    the result is [NaN] as soon as one of them is. *)
Definition Math_max (first : value) (rest : list value) : number :=
  fold_left (fun acc v => max2 acc (ToNumber v)) rest (ToNumber first).

(** [Math.floor] on an exact rational. *)
Definition Math_floor (q : Q) : Q := inject_Z (Qfloor q).

(** The [%] operator on integers with a divisor other than 0: the
    remainder has the sign of the dividend. *)
Definition rem (a b : Z) : Z := Z.rem a b.

(** The test [a % b !== 0] on integers.  With the divisor 0 the remainder
    is NaN, which is [!==] 0. *)
Definition rem_is_not_zero (a b : Z) : bool :=
  (b =? 0) || negb (rem a b =? 0).

(** String concatenation with a number operand. *)
Definition str (n : Z) : string := NilZero.string_of_int (Z.to_int n).

(** Modelled from the spec: [util/mod] is not part of the sources
    ([mod] is reserved here, hence the name [modulo]).  The
    spec (4.1, 4.5) uses it as the mathematical modulus: "wrap modulo
    tileColumns", "pixelSize mod tileSize". *)
Definition modulo (a b : Z) : Z := a mod b.

(** Modelled from the spec: [util/clamp] is not part of the sources.  The
    spec (4.5) writes [clamp(v, 0, tileRows-1)]: "clamp vertically". *)
Definition clamp (v lo hi : Z) : Z := Z.min (Z.max v lo) hi.

(** The integers [i = 0, 1, 2, ...] visited by
    [for (var i = 0; i < bound; i++)].  The fuel is the number of
    iterations; [for_indices_spec] below shows the loop always leaves
    through its test. *)
Fixpoint for_from (fuel : nat) (i : Z) (bound : Q) : list Z :=
  match fuel with
  | O => []
  | S fuel' =>
      if Qle_bool bound (inject_Z i) then []
      else i :: for_from fuel' (i + 1) bound
  end.

Definition for_indices (bound : Q) : list Z :=
  for_from (Z.to_nat (Qceiling bound)) 0 bound.

(** The integers visited by [for (var i = 0; i <= max; i++)] with an
    integer bound; the fuel is again the number of iterations
    ([for_upto_spec]). *)
Fixpoint for_le_from (fuel : nat) (i max : Z) : list Z :=
  match fuel with
  | O => []
  | S fuel' =>
      if i <=? max then i :: for_le_from fuel' (i + 1) max
      else []
  end.

Definition for_upto (max : Z) : list Z :=
  for_le_from (Z.to_nat (max + 1)) 0 max.

End Js.

Import Js.

Notation "'do' a <- c ; k" := (Js.bind c (fun a => k))
  (at level 10, a name, c at level 100, k at level 200).

(** ** Levels *)

(** One entry of the constructor's argument. *)
Record LevelProperties : Type := {
  p_width : Z;
  p_height : Z;
  p_tileWidth : Z;
  p_tileHeight : Z
}.

Module Level.

(** An [EquirectTileLevel] object.  [ref] is the identity of the object
    (its allocation index): [Array.prototype.indexOf] compares objects by
    identity, not by content. *)
Record t : Type := mk {
  ref : nat;
  _width : Z;
  _height : Z;
  _tileWidth : Z;
  _tileHeight : Z
}.

Definition create (ref : nat) (levelProperties : LevelProperties) : t :=
  {| ref := ref;
     _width := p_width levelProperties;
     _height := p_height levelProperties;
     _tileWidth := p_tileWidth levelProperties;
     _tileHeight := p_tileHeight levelProperties |}.

Definition width (this : t) : Z := _width this.
Definition height (this : t) : Z := _height this.
Definition tileWidth (this : t) : Z := _tileWidth this.
Definition tileHeight (this : t) : Z := _tileHeight this.

(** Reading the property [level.tileWidth] without calling it yields the
    method itself. *)
Definition get_tileWidth (this : t) : Js.value := Js.Fun "tileWidth".
Definition get_tileHeight (this : t) : Js.value := Js.Fun "tileHeight".

(** Modelled from the spec: the base class [Level] with
    [numHorizontalTiles] and [numVerticalTiles] is not part of the
    sources.  The spec (3, 4.1): "tileColumns = ceil(pixelWidth /
    tilePixelWidth)", "integer ceiling-division of pixel size by tile
    pixel size". *)
Definition numHorizontalTiles (this : t) : Z :=
  Qceiling (inject_Z (width this) / inject_Z (tileWidth this)).

Definition numVerticalTiles (this : t) : Z :=
  Qceiling (inject_Z (height this) / inject_Z (tileHeight this)).

(** The method builds an [Error] and hands it back with [return]; nothing
    is thrown.  [None] is the [undefined] of a run that reaches the end. *)
Definition _validateWithParentLevel (this parentLevel : t) : option Js.Error :=
  let width := width this in
  let height := height this in
  let tileWidth := tileWidth this in
  let tileHeight := tileHeight this in
  let parentWidth := Level.width parentLevel in
  let parentHeight := Level.height parentLevel in
  let parentTileWidth := Level.tileWidth parentLevel in
  let parentTileHeight := Level.tileHeight parentLevel in
  if Js.rem_is_not_zero width parentWidth then
    Some (Js.JsError ("Level width must be multiple of parent level: " ++
                      Js.str width ++ " vs. " ++ Js.str parentWidth))
  else if Js.rem_is_not_zero height parentHeight then
    Some (Js.JsError ("Level height must be multiple of parent level: " ++
                      Js.str height ++ " vs. " ++ Js.str parentHeight))
  else if Js.rem_is_not_zero tileWidth parentTileWidth then
    Some (Js.JsError ("Level tile width must be multiple of parent level: " ++
                      Js.str tileWidth ++ " vs. " ++ Js.str parentTileWidth))
  else if Js.rem_is_not_zero tileHeight parentTileHeight then
    Some (Js.JsError ("Level tile height must be multiple of parent level: " ++
                      Js.str tileHeight ++ " vs. " ++ Js.str parentTileHeight))
  else None.

(** All four dimensions are positive integers (spec, 3). *)
Definition positive (l : t) : Prop :=
  0 < width l /\ 0 < height l /\ 0 < tileWidth l /\ 0 < tileHeight l.

Definition positiveb (l : t) : bool :=
  (0 <? width l) && (0 <? height l) && (0 <? tileWidth l) && (0 <? tileHeight l).

End Level.

(** [levelList[i]] for a number [i]: [undefined] ([None]) outside the array. *)
Definition at_index {A : Type} (l : list A) (i : Z) : option A :=
  if i <? 0 then None else nth_error l (Z.to_nat i).

(** [levelList.indexOf(level)]: the first position holding that very object,
    [-1] when there is none. *)
Fixpoint indexOf_from (i : Z) (l : list Level.t) (level : Level.t) : Z :=
  match l with
  | [] => -1
  | l0 :: rest =>
      if Nat.eqb (Level.ref l0) (Level.ref level) then i
      else indexOf_from (i + 1) rest level
  end.

Definition indexOf (l : list Level.t) (level : Level.t) : Z :=
  indexOf_from 0 l level.

(** ** Tile addresses *)

Module Tile.

(** An [EquirectTile]: the fields [x], [y], [z].  The fields [_geometry]
    and [_level] of the source are not stored: every method below takes
    the geometry as an argument and looks [levelList[z]] up in it, which
    gives the same level since [levelList] never changes after
    construction. *)
Record t : Type := mk {
  x : Q;
  y : Q;
  z : Z
}.

(** [equals]: the geometry is the same by construction (see above); the
    remaining tests in the order of the source. *)
Definition equals (this that : t) : bool :=
  Qeq_bool (y this) (y that) && Qeq_bool (x this) (x that) && (z this =? z that).

End Tile.

(** ** The neighbour cache *)

Module LruMap.

(** Modelled from the spec: [collections/LruMap] is not part of the
    sources.  The spec (3, 5, 6): a mapping from tile address to
    neighbour list with "bounded capacity", "least-recently-used
    eviction", a "recency bump" on read and "insert/evict" on write; keys
    are compared with the tile's [equals].  The entries are kept most
    recently used first. *)
Record t : Type := mk {
  capacity : nat;
  entries : list (Tile.t * list Tile.t)
}.

Definition create (capacity : nat) : t :=
  {| capacity := capacity; entries := [] |}.

Fixpoint lookup (k : Tile.t) (es : list (Tile.t * list Tile.t))
  : option (Tile.t * list Tile.t) :=
  match es with
  | [] => None
  | (k0, v0) :: rest =>
      if Tile.equals k0 k then Some (k0, v0) else lookup k rest
  end.

Definition remove (k : Tile.t) (es : list (Tile.t * list Tile.t))
  : list (Tile.t * list Tile.t) :=
  filter (fun e => negb (Tile.equals (fst e) k)) es.

Definition get (m : t) (k : Tile.t) : option (list Tile.t) * t :=
  match lookup k (entries m) with
  | None => (None, m)
  | Some (k0, v0) =>
      (Some v0,
       {| capacity := capacity m;
          entries := (k0, v0) :: remove k (entries m) |})
  end.

Definition set (m : t) (k : Tile.t) (v : list Tile.t) : t :=
  {| capacity := capacity m;
     entries := firstn (capacity m) ((k, v) :: remove k (entries m)) |}.

End LruMap.

(** ** The geometry object *)

Module Geometry.

(** The state of an [EquirectTileGeometry].  [_tileSearcher] is an
    external collaborator (a parameter of [visibleTiles] below); [_vec]
    and [_viewSize] are scratch buffers. *)
Record t : Type := mk {
  levelList : list Level.t;
  selectableLevelList : list Level.t;
  _neighborsCache : LruMap.t
}.

Definition with_cache (g : t) (c : LruMap.t) : t :=
  {| levelList := levelList g;
     selectableLevelList := selectableLevelList g;
     _neighborsCache := c |}.

End Geometry.

Definition neighborsCacheSize : nat := 64.

Definition neighborOffsets : list (Z * Z) :=
  [ (0, 1);     (* top *)
    (1, 0);     (* right *)
    (0, -1);    (* bottom *)
    (-1, 0) ].  (* left *)

(** ** Methods of a tile *)

Module EquirectTile.

Import Geometry.

(** [this._level], that is [geometry.levelList[z]]. *)
Definition _level (geometry : Geometry.t) (this : Tile.t) : option Level.t :=
  at_index (levelList geometry) (Tile.z this).

(** A method call on [this._level]: a [TypeError] when it is undefined. *)
Definition the_level (geometry : Geometry.t) (this : Tile.t)
  : Js.completion Level.t :=
  match _level geometry this with
  | Some level => Js.Return level
  | None => Js.Throw Js.TypeError
  end.

Definition rotX (this : Tile.t) : Z := 0.
Definition rotY (this : Tile.t) : Z := 0.

(** [minX], [minY], [scaleX], [scaleY]: the quotients are exact, where the
    code rounds them to doubles; they are meant for a level of positive
    width and height (the code gives NaN or Infinity for a zero one). *)
Definition minX (geometry : Geometry.t) (this : Tile.t) : Js.completion Q :=
  do level <- the_level geometry this;
  let levelWidth := Level.width level in
  let tileWidth := Level.tileWidth level in
  Js.Return ((Tile.x this * inject_Z tileWidth) / inject_Z levelWidth)%Q.

Definition minY (geometry : Geometry.t) (this : Tile.t) : Js.completion Q :=
  do level <- the_level geometry this;
  let levelHeight := Level.height level in
  let tileHeight := Level.tileHeight level in
  Js.Return ((Tile.y this * inject_Z tileHeight) / inject_Z levelHeight)%Q.

(** [a || b] on numbers: [b] when [a] is zero. *)
Definition or_else (a b : Z) : Z := if a =? 0 then b else a.

Definition width (geometry : Geometry.t) (this : Tile.t) : Js.completion Z :=
  do level <- the_level geometry this;
  let levelWidth := Level.width level in
  let tileWidth := Level.tileWidth level in
  if Qeq_bool (Tile.x this) (inject_Z (Level.numHorizontalTiles level - 1)) then
    let widthRemainder := Js.modulo levelWidth tileWidth in
    Js.Return (or_else widthRemainder tileWidth)
  else
    Js.Return tileWidth.

Definition height (geometry : Geometry.t) (this : Tile.t) : Js.completion Z :=
  do level <- the_level geometry this;
  let levelHeight := Level.height level in
  let tileHeight := Level.tileHeight level in
  if Qeq_bool (Tile.y this) (inject_Z (Level.numVerticalTiles level - 1)) then
    let heightRemainder := Js.modulo levelHeight tileHeight in
    Js.Return (or_else heightRemainder tileHeight)
  else
    Js.Return tileHeight.

Definition scaleX (geometry : Geometry.t) (this : Tile.t) : Js.completion Q :=
  do level <- the_level geometry this;
  let levelWidth := Level.width level in
  do w <- width geometry this;
  Js.Return (inject_Z w / inject_Z levelWidth)%Q.

Definition scaleY (geometry : Geometry.t) (this : Tile.t) : Js.completion Q :=
  do level <- the_level geometry this;
  let levelHeight := Level.height level in
  do h <- height geometry this;
  Js.Return (inject_Z h / inject_Z levelHeight)%Q.

(** [geometry.levelList[i].m()]: a [TypeError] outside the list. *)
Definition level_at (geometry : Geometry.t) (i : Z) : Js.completion Level.t :=
  match at_index (levelList geometry) i with
  | Some level => Js.Return level
  | None => Js.Throw Js.TypeError
  end.

(** [parent]: [Return None] is the [null] of level 0.  The quotient is
    exact; [Double.parent] is the same code with rounding. *)
Definition parent (geometry : Geometry.t) (this : Tile.t)
  : Js.completion (option Tile.t) :=
  if Tile.z this =? 0 then Js.Return None
  else
    do level <- level_at geometry (Tile.z this);
    do parentLevel <- level_at geometry (Tile.z this - 1);
    let z' := Tile.z this - 1 in
    let x' := Js.Math_floor
                (Tile.x this / (inject_Z (Level.numHorizontalTiles level) /
                                inject_Z (Level.numHorizontalTiles parentLevel)))%Q in
    let y' := Js.Math_floor
                (Tile.y this / (inject_Z (Level.numVerticalTiles level) /
                                inject_Z (Level.numVerticalTiles parentLevel)))%Q in
    Js.Return (Some (Tile.mk x' y' z')).

(** [children(result)]: [Return None] is the [null] of the finest level;
    otherwise the tiles are pushed onto [result] (a fresh array when no
    argument is given), column by column.  The scales are exact and the
    levels are meant to have positive dimensions; [Double.children] is the
    same code with rounding, and with the loop that has no end when a
    scale is infinite. *)
Definition children (geometry : Geometry.t) (this : Tile.t)
           (result : option (list Tile.t))
  : Js.completion (option (list Tile.t)) :=
  if Tile.z this =? Z.of_nat (List.length (levelList geometry)) - 1 then Js.Return None
  else
    do level <- level_at geometry (Tile.z this);
    do childLevel <- level_at geometry (Tile.z this + 1);
    let z' := Tile.z this + 1 in
    let result := match result with Some r => r | None => [] end in
    let xscale := (inject_Z (Level.numHorizontalTiles childLevel) /
                   inject_Z (Level.numHorizontalTiles level))%Q in
    let yscale := (inject_Z (Level.numVerticalTiles childLevel) /
                   inject_Z (Level.numVerticalTiles level))%Q in
    Js.Return
      (Some (result ++
             flat_map
               (fun dx =>
                  map (fun dy =>
                         Tile.mk (xscale * Tile.x this + inject_Z dx)%Q
                                 (yscale * Tile.y this + inject_Z dy)%Q
                                 z')
                      (Js.for_indices yscale))
               (Js.for_indices xscale))).

(** One turn of the loop of [neighbors]: the candidate for one offset,
    [None] when nothing is pushed. *)
Definition neighbor_candidate (numX numY : Z) (this : Tile.t) (offset : Z * Z)
  : option Tile.t :=
  let xOffset := fst offset in
  let yOffset := snd offset in
  let newX := (Tile.x this + inject_Z xOffset)%Q in
  let newY := (Tile.y this + inject_Z yOffset)%Q in
  let newZ := Tile.z this in
  let newX := if negb (Qle_bool 0 newX) then inject_Z numX else newX in
  let newX := if negb (Qle_bool newX (inject_Z numX)) then 0%Q else newX in
  if Qle_bool 0 newY && Qle_bool newY (inject_Z numY) then
    Some (Tile.mk newX newY newZ)
  else None.

(** The part of [neighbors] that runs on a cache miss, up to the loop's
    end. *)
Definition compute_neighbors (level : Level.t) (this : Tile.t) : list Tile.t :=
  let numX := Level.numHorizontalTiles level - 1 in
  let numY := Level.numVerticalTiles level - 1 in
  fold_left
    (fun result offset =>
       match neighbor_candidate numX numY this offset with
       | Some t => result ++ [t]
       | None => result
       end)
    neighborOffsets [].

(** [neighbors]: the list and the geometry with its updated cache. *)
Definition neighbors (geometry : Geometry.t) (this : Tile.t)
  : Js.completion (list Tile.t * Geometry.t) :=
  let cache := _neighborsCache geometry in
  match LruMap.get cache this with
  | (Some cachedResult, cache') =>
      Js.Return (cachedResult, with_cache geometry cache')
  | (None, _) =>
      do level <- the_level geometry this;
      let result := compute_neighbors level this in
      Js.Return (result, with_cache geometry (LruMap.set cache this result))
  end.

(** A point of the unit sphere. *)
Definition vec3 : Type := (R * R * R)%type.

Definition makeVertex (yaw pitch : R) : vec3 :=
  let x := (sin yaw * cos pitch)%R in
  let y := (- sin pitch)%R in
  let z := (cos yaw * cos pitch)%R in
  (x, y, z).

(** [vertices]: the four vectors [result[0..3]] after the call (all four
    are overwritten, so the previous content of a buffer passed in does
    not matter). *)
Definition vertices (geometry : Geometry.t) (this : Tile.t)
  : Js.completion (list vec3) :=
  do minx <- minX geometry this;
  let left := (- Q2R minx * PI * 2)%R in
  do scalex <- scaleX geometry this;
  let right := (left - Q2R scalex * PI * 2)%R in
  do miny <- minY geometry this;
  let bottom := (- (Q2R miny - 0.5) * PI)%R in
  do scaley <- scaleY geometry this;
  let top := (bottom - Q2R scaley * PI)%R in
  Js.Return [ makeVertex left top;
              makeVertex right top;
              makeVertex right bottom;
              makeVertex left bottom ].

End EquirectTile.

(** ** The view *)

Module View.

(** What the external view object answers: [yaw()], [pitch()] and the
    width and height that [size(out)] writes into [out]. *)
Record t : Type := mk {
  yaw : R;
  pitch : R;
  width : Z;
  height : Z
}.

End View.

(** ** Methods of the geometry *)

Module EquirectTileGeometry.

Import Geometry.

(** The constructor's argument: an array of level properties, or any
    other value. *)
Inductive argument : Type :=
| Array (levelPropertiesList : list LevelProperties)
| NotAnArray.

(** Modelled from the spec: [common.makeLevelList] is not part of the
    sources.  The spec (3, 4.1): the pyramid is the "ordered sequence" of
    the levels built from the level specifications, "index 0 =
    coarsest".  Each level is a fresh object. *)
Fixpoint makeLevelList_from (ref : nat) (levelPropertiesList : list LevelProperties)
  : list Level.t :=
  match levelPropertiesList with
  | [] => []
  | p :: rest => Level.create ref p :: makeLevelList_from (S ref) rest
  end.

Definition makeLevelList (levelPropertiesList : list LevelProperties)
  : list Level.t :=
  makeLevelList_from 0 levelPropertiesList.

(** Modelled from the spec: [common.makeSelectableLevelList] is not part
    of the sources.  The spec (4.1) only says that construction fails
    when the input is not a non-empty sequence. *)
Definition makeSelectableLevelList (levelList : list Level.t)
  : Js.completion (list Level.t) :=
  match levelList with
  | [] => Js.Throw (Js.JsError "No selectable levels in list")
  | _ => Js.Return levelList
  end.

(** The values of the calls
    [levelList[i]._validateWithParentLevel(levelList[i - 1])] for
    [i = 1 .. length - 1]. *)
Fixpoint validation_results (levelList : list Level.t)
  : list (option Js.Error) :=
  match levelList with
  | parentLevel :: rest =>
      match rest with
      | level :: _ =>
          Level._validateWithParentLevel level parentLevel
          :: validation_results rest
      | [] => []
      end
  | [] => []
  end.

(** [new EquirectTileGeometry(levelPropertiesList)].  The loop evaluates
    the validation calls as expression statements: their values are
    dropped. *)
Definition new (levelPropertiesList : argument) : Js.completion Geometry.t :=
  match levelPropertiesList with
  | NotAnArray => Js.Throw (Js.JsError "Level list must be an array")
  | Array props =>
      let levelList := makeLevelList props in
      do selectable <- makeSelectableLevelList levelList;
      let _ := validation_results levelList in
      Js.Return {| levelList := levelList;
                   selectableLevelList := selectable;
                   _neighborsCache := LruMap.create neighborsCacheSize |}
  end.

Definition maxTileSize (this : Geometry.t) : Js.number :=
  fold_left
    (fun maxTileSize level =>
       Js.Math_max (Js.Num maxTileSize)
                   [Level.get_tileWidth level; Level.get_tileHeight level])
    (levelList this) (Js.Finite 0).

(** [levelTiles(level, result)]: the tiles are pushed onto [result] (a
    fresh array when no argument is given), column by column. *)
Definition levelTiles (this : Geometry.t) (level : Level.t)
           (result : option (list Tile.t)) : list Tile.t :=
  let levelIndex := indexOf (levelList this) level in
  let maxX := Level.numHorizontalTiles level - 1 in
  let maxY := Level.numVerticalTiles level - 1 in
  let result := match result with Some r => r | None => [] end in
  result ++
  flat_map
    (fun x => map (fun y => Tile.mk (inject_Z x) (inject_Z y) levelIndex)
                  (Js.for_upto maxY))
    (Js.for_upto maxX).

(** [Math.floor] of a real number. *)
Definition floorR (r : R) : Z := Int_part r.

(** [_closestTile] over real angles and the real number pi, without
    rounding: column and row are within the level as in the code, but a
    direction on the edge of a tile can fall into the next tile once the
    code rounds; [Double._closestTile] is the same code with rounding. *)
Definition _closestTile (this : Geometry.t) (view : View.t) (level : Level.t)
  : Tile.t :=
  let x := (View.yaw view / (2 * PI) + 0.5)%R in
  let y := (- View.pitch view / PI + 0.5)%R in
  let tileZ := indexOf (levelList this) level in
  let levelWidth := Level.width level in
  let levelHeight := Level.height level in
  let tileWidth := Level.tileWidth level in
  let tileHeight := Level.tileHeight level in
  let numX := Level.numHorizontalTiles level in
  let numY := Level.numVerticalTiles level in
  let tileX := Js.modulo (floorR (x * IZR levelWidth / IZR tileWidth)) numX in
  let tileY := Js.clamp (floorR (y * IZR levelHeight / IZR tileHeight)) 0 (numY - 1) in
  Tile.mk (inject_Z tileX) (inject_Z tileY) tileZ.

Section VisibleTiles.

(** The external [TileSearcher]: [search(view, startingTile, result)]
    pushes the tiles it finds onto [result] and returns their number;
    it walks the tile graph through [neighbors], which updates the
    cache of the geometry. *)
Variable search :
  Geometry.t -> View.t -> Tile.t -> list Tile.t -> Z * list Tile.t * Geometry.t.

Definition visibleTiles (this : Geometry.t) (view : View.t) (level : Level.t)
           (result : option (list Tile.t))
  : Js.completion (list Tile.t * Geometry.t) :=
  let result := match result with Some r => r | None => [] end in
  if (View.width view =? 0) || (View.height view =? 0) then
    (* No tiles are visible if the viewport is empty. *)
    Js.Return (result, this)
  else
    let startingTile := _closestTile this view level in
    let '(count, result', this') := search this view startingTile result in
    if count =? 0 then
      do _ <- EquirectTile.vertices this' startingTile;
      Js.Throw (Js.JsError "Starting tile is not visible")
    else
      Js.Return (result', this').

End VisibleTiles.

End EquirectTileGeometry.

(** ** The same code in IEEE double arithmetic

    Where the code divides and multiplies numbers that are no integers,
    exact arithmetic and JavaScript disagree.  This module embeds
    [parent], [children] and [_closestTile] once more, number for number,
    with binary64 floating-point operations (the primitive floats of the
    kernel): tile coordinates are doubles, [Math.PI] is the double the
    engine uses, and every [+], [*], [/] rounds as in JavaScript. *)

Module Double.

(** What a call does: it returns, it throws a [TypeError] (a method
    called on undefined), or it never returns (a loop without end). *)
Inductive outcome (A : Type) : Type :=
| Returns (a : A)
| TypeError
| NeverReturns.
Arguments Returns {A} a.
Arguments TypeError {A}.
Arguments NeverReturns {A}.

(** An integer as a double: exact for integers below 2^53 in size, which
    is what the statements about doubles assume of the dimensions of a
    level. *)
Definition of_Z (z : Z) : float :=
  if z <? 0 then PrimFloat.opp (PrimFloat.of_uint63 (Uint63.of_Z (- z)))
  else PrimFloat.of_uint63 (Uint63.of_Z z).

(** [Math.PI]. *)
Definition PI : float := 0x1.921fb54442d18p+1%float.

(** The exact value of a finite double, [None] for NaN and the
    infinities. *)
Definition value (f : float) : option Q :=
  match Prim2SF f with
  | S754_zero _ => Some 0%Q
  | S754_finite s m e =>
      Some ((if s then - inject_Z (Z.pos m) else inject_Z (Z.pos m)) * Qpower 2 e)%Q
  | S754_infinity _ => None
  | S754_nan => None
  end.

(** The double [f] is finite and its value is [q]. *)
Definition represents (f : float) (q : Q) : Prop :=
  exists q', value f = Some q' /\ (q' == q)%Q.

(** The result of [Math.floor]: an integer, or what is not finite. *)
Inductive floored : Type :=
| Int (k : Z)
| Infinite (negative : bool)
| NotANumber.

(** [Math.floor]: the largest integer not above the value; exact, since
    that integer is a double as well. *)
Definition floor (f : float) : floored :=
  match Prim2SF f with
  | S754_infinity s => Infinite s
  | S754_nan => NotANumber
  | _ => match value f with
         | Some q => Int (Qfloor q)
         | None => NotANumber
         end
  end.

(** The result of [Math.floor] as a double again: a double without
    fractional bits (exponent not negative) is its own floor. *)
Definition Math_floor (f : float) : float :=
  match Prim2SF f with
  | S754_finite _ _ e =>
      if 0 <=? e then f
      else match floor f with
           | Int k => of_Z k
           | _ => f
           end
  | _ => f
  end.

(** Modelled from the spec: [util/mod] is not part of the sources.  The
    spec (4.5): "wrap modulo tileColumns"; what is not finite has no
    remainder (NaN). *)
Definition modulo (a : floored) (n : Z) : floored :=
  match a with
  | Int k => Int (k mod n)
  | _ => NotANumber
  end.

(** Modelled from the spec: [util/clamp] is not part of the sources.  The
    spec (4.5): [clamp(v, 0, tileRows-1)]; an infinity is clamped to the
    bound on its side, NaN stays NaN. *)
Definition clamp (a : floored) (lo hi : Z) : floored :=
  match a with
  | Int k => Int (Js.clamp k lo hi)
  | Infinite negative => Int (if negative then lo else hi)
  | NotANumber => NotANumber
  end.

Definition to_float (a : floored) : float :=
  match a with
  | Int k => of_Z k
  | Infinite negative => if negative then neg_infinity else infinity
  | NotANumber => nan
  end.

(** A tile whose column and row are doubles. *)
Record tile : Type := mk {
  x : float;
  y : float;
  z : Z
}.

(** [equals]: [===] on doubles (NaN differs from itself, the two zeros
    are equal). *)
Definition equals (this that : tile) : bool :=
  PrimFloat.eqb (y this) (y that) && PrimFloat.eqb (x this) (x that)
  && (z this =? z that).

Definition level_at (geometry : Geometry.t) (i : Z) : outcome Level.t :=
  match at_index (Geometry.levelList geometry) i with
  | Some level => Returns level
  | None => TypeError
  end.

(** [parent]: the quotient of the tile counts, the quotient of the
    coordinate by it and [Math.floor], each rounded as a double. *)
Definition parent (geometry : Geometry.t) (this : tile) : outcome (option tile) :=
  if z this =? 0 then Returns None
  else
    match level_at geometry (z this) with
    | Returns level =>
        match level_at geometry (z this - 1) with
        | Returns parentLevel =>
            let z' := z this - 1 in
            let x' := Math_floor
                        (x this / (of_Z (Level.numHorizontalTiles level) /
                                   of_Z (Level.numHorizontalTiles parentLevel)))%float in
            let y' := Math_floor
                        (y this / (of_Z (Level.numVerticalTiles level) /
                                   of_Z (Level.numVerticalTiles parentLevel)))%float in
            Returns (Some (mk x' y' z'))
        | _ => TypeError
        end
    | _ => TypeError
    end.

(** The values of [i] in [for (var i = 0; i < bound; i++)], counted in
    doubles; [None] when the fuel does not reach the end of the loop. *)
Fixpoint for_from (fuel : nat) (i bound : float) : option (list float) :=
  if (i <? bound)%float then
    match fuel with
    | O => None
    | S fuel' =>
        match for_from fuel' (i + 1)%float bound with
        | Some rest => Some (i :: rest)
        | None => None
        end
    end
  else Some [].

(** The loop runs [ceil(bound)] times for a finite bound; for an
    infinite bound it has no end, and no fuel is given. *)
Definition for_indices (bound : float) : option (list float) :=
  for_from (match value bound with
            | Some q => Z.to_nat (Qceiling q)
            | None => 0%nat
            end) 0%float bound.

(** [children]: the call returns [result] when the outer loop does not
    run, and it does not return when the outer loop has no end, or runs
    and the inner loop has no end. *)
Definition children (geometry : Geometry.t) (this : tile)
           (result : option (list tile)) : outcome (option (list tile)) :=
  if z this =? Z.of_nat (List.length (Geometry.levelList geometry)) - 1
  then Returns None
  else
    match level_at geometry (z this) with
    | Returns level =>
        match level_at geometry (z this + 1) with
        | Returns childLevel =>
            let z' := z this + 1 in
            let result := match result with Some r => r | None => [] end in
            let xscale := (of_Z (Level.numHorizontalTiles childLevel) /
                           of_Z (Level.numHorizontalTiles level))%float in
            let yscale := (of_Z (Level.numVerticalTiles childLevel) /
                           of_Z (Level.numVerticalTiles level))%float in
            match for_indices xscale with
            | Some [] => Returns (Some result)
            | Some dxs =>
                match for_indices yscale with
                | Some dys =>
                    Returns
                      (Some (result ++
                             flat_map
                               (fun dx =>
                                  map (fun dy =>
                                         mk (xscale * x this + dx)%float
                                            (yscale * y this + dy)%float z')
                                      dys)
                               dxs))
                | None => NeverReturns
                end
            | None => NeverReturns
            end
        | _ => TypeError
        end
    | _ => TypeError
    end.

(** The view: [yaw()] and [pitch()] as doubles. *)
Record view : Type := mk_view {
  yaw : float;
  pitch : float
}.

(** [_closestTile]: [x] and [y] and the two products and quotients are
    doubles; [mod] and [clamp] act on the integer that [Math.floor]
    returns. *)
Definition _closestTile (this : Geometry.t) (view : view) (level : Level.t)
  : tile :=
  let x := (yaw view / (2 * PI) + 0.5)%float in
  let y := (- pitch view / PI + 0.5)%float in
  let tileZ := indexOf (Geometry.levelList this) level in
  let levelWidth := of_Z (Level.width level) in
  let levelHeight := of_Z (Level.height level) in
  let tileWidth := of_Z (Level.tileWidth level) in
  let tileHeight := of_Z (Level.tileHeight level) in
  let numX := Level.numHorizontalTiles level in
  let numY := Level.numVerticalTiles level in
  let tileX := modulo (floor (x * levelWidth / tileWidth)%float) numX in
  let tileY := clamp (floor (y * levelHeight / tileHeight)%float) 0 (numY - 1) in
  mk (to_float tileX) (to_float tileY) tileZ.

End Double.

(** ** Notions used in the statements, and sample inputs *)

Import Geometry.

(** A level is divisible by its predecessor: the four tests of
    [_validateWithParentLevel], with the [%] of the code. *)
Definition divisible (level parentLevel : Level.t) : Prop :=
  Js.rem (Level.width level) (Level.width parentLevel) = 0 /\
  Js.rem (Level.height level) (Level.height parentLevel) = 0 /\
  Js.rem (Level.tileWidth level) (Level.tileWidth parentLevel) = 0 /\
  Js.rem (Level.tileHeight level) (Level.tileHeight parentLevel) = 0.

(** The Level Hierarchy invariant of the spec (3): every level is divisible
    by its immediate predecessor. *)
Definition hierarchy_invariant (levelList : list Level.t) : Prop :=
  forall i level parentLevel,
    nth_error levelList (S i) = Some level ->
    nth_error levelList i = Some parentLevel ->
    divisible level parentLevel.

(** A rational that is an integer. *)
Definition integral (q : Q) : Prop := exists k : Z, (q == inject_Z k)%Q.

(** The subdivision ratios that [parent] and [children] divide and multiply
    by. *)
Definition ratio_x (level parentLevel : Level.t) : Q :=
  (inject_Z (Level.numHorizontalTiles level) /
   inject_Z (Level.numHorizontalTiles parentLevel))%Q.

Definition ratio_y (level parentLevel : Level.t) : Q :=
  (inject_Z (Level.numVerticalTiles level) /
   inject_Z (Level.numVerticalTiles parentLevel))%Q.

(** The coarser level is tiled exactly: no partial edge tile. *)
Definition exactly_tiled (l : Level.t) : Prop :=
  (Level.width l) mod (Level.tileWidth l) = 0 /\
  (Level.height l) mod (Level.tileHeight l) = 0.

(** The factor by which the tiles grow divides the factor by which the
    level grows. *)
Definition growth_nested (level parentLevel : Level.t) : Prop :=
  (Level.width level / Level.width parentLevel)
    mod (Level.tileWidth level / Level.tileWidth parentLevel) = 0 /\
  (Level.height level / Level.height parentLevel)
    mod (Level.tileHeight level / Level.tileHeight parentLevel) = 0.

(** The largest tile dimension of a level list, as the spec (4.1) words
    [maxTileSize]. *)
Definition max_tile_dimension (levelList : list Level.t) : Z :=
  fold_right
    (fun level acc => Z.max (Z.max (Level.tileWidth level) (Level.tileHeight level)) acc)
    0 levelList.

(** Sample level lists. *)
Definition props (w h tw th : Z) : LevelProperties :=
  {| p_width := w; p_height := h; p_tileWidth := tw; p_tileHeight := th |}.

Definition levels_not_multiple : list LevelProperties :=
  [ props 512 512 512 512; props 1000 1000 512 512 ].

Definition levels_single : list LevelProperties :=
  [ props 512 512 512 512 ].

Definition levels_three_over_two : list LevelProperties :=
  [ props 512 512 256 256; props 1536 1536 512 512 ].

(** A tile searcher that finds nothing, for the concrete runs below. *)
Definition search_nothing (g : Geometry.t) (v : View.t) (start : Tile.t)
           (result : list Tile.t) : Z * list Tile.t * Geometry.t :=
  (0, result, g).

Definition geometry_single : Geometry.t :=
  {| levelList := EquirectTileGeometry.makeLevelList levels_single;
     selectableLevelList := EquirectTileGeometry.makeLevelList levels_single;
     _neighborsCache := LruMap.create neighborsCacheSize |}.

Definition view_zero_width : View.t :=
  {| View.yaw := 0%R; View.pitch := 0%R; View.width := 0; View.height := 600 |}.

(** Deciding the hypotheses on a concrete level list. *)
Definition divisibleb (level parentLevel : Level.t) : bool :=
  (Js.rem (Level.width level) (Level.width parentLevel) =? 0) &&
  (Js.rem (Level.height level) (Level.height parentLevel) =? 0) &&
  (Js.rem (Level.tileWidth level) (Level.tileWidth parentLevel) =? 0) &&
  (Js.rem (Level.tileHeight level) (Level.tileHeight parentLevel) =? 0).

Fixpoint hierarchy_invariantb (levelList : list Level.t) : bool :=
  match levelList with
  | parentLevel :: rest =>
      match rest with
      | level :: _ => divisibleb level parentLevel && hierarchy_invariantb rest
      | [] => true
      end
  | [] => true
  end.

Definition levels_tripling : list LevelProperties :=
  [ props 512 512 256 256; props 1536 1536 256 256 ].

Definition geometry_of (ps : list LevelProperties) : Geometry.t :=
  {| levelList := EquirectTileGeometry.makeLevelList ps;
     selectableLevelList := EquirectTileGeometry.makeLevelList ps;
     _neighborsCache := LruMap.create neighborsCacheSize |}.

Definition tile (x y z : Z) : Tile.t := Tile.mk (inject_Z x) (inject_Z y) z.

(** Two tile objects with the same address. *)
Definition same_address (k t : Tile.t) : Prop :=
  (Tile.x k == Tile.x t)%Q /\ (Tile.y k == Tile.y t)%Q /\ Tile.z k = Tile.z t.

(** The invariant of the cache: every entry holds the list that
    [neighbors] computes for its key. *)
Definition coherent (g : Geometry.t) : Prop :=
  forall k v,
    In (k, v) (LruMap.entries (_neighborsCache g)) ->
    exists level,
      EquirectTile._level g k = Some level /\
      v = EquirectTile.compute_neighbors level k.

(** The states a geometry goes through: the only method that changes it is
    [neighbors], through the cache. *)
Inductive reachable (g0 : Geometry.t) : Geometry.t -> Prop :=
| reachable_start : reachable g0 g0
| reachable_neighbors (g : Geometry.t) (t : Tile.t) (res : list Tile.t)
                      (g' : Geometry.t) :
    reachable g0 g ->
    EquirectTile.neighbors g t = Js.Return (res, g') ->
    reachable g0 g'.

(** The column of a candidate after the two wrap tests of the loop. *)
Definition wrap_column (numX : Z) (newX : Q) : Q :=
  let newX := if negb (Qle_bool 0 newX) then inject_Z numX else newX in
  if negb (Qle_bool newX (inject_Z numX)) then 0%Q else newX.

Definition option_list {A : Type} (o : option A) : list A :=
  match o with
  | Some a => [a]
  | None => []
  end.

(** The shape of a neighbour list of tile [t]: the top entry if there is a
    row above, the right entry, the bottom entry if there is a row below,
    the left entry. *)
Record neighbor_layout (numX numY : Z) (t : Tile.t) (res top : list Tile.t)
       (r : Tile.t) (bottom : list Tile.t) (l : Tile.t) : Prop := {
  layout_list : res = top ++ r :: bottom ++ [l];
  layout_top :
    ((Tile.y t + 1 <= inject_Z numY)%Q /\
     exists u, top = [u] /\ (Tile.y u == Tile.y t + 1)%Q /\ Tile.z u = Tile.z t) \/
    ((inject_Z numY < Tile.y t + 1)%Q /\ top = []);
  layout_right :
    (Tile.x r == wrap_column numX (Tile.x t + 1))%Q /\
    (Tile.y r == Tile.y t)%Q /\ Tile.z r = Tile.z t;
  layout_bottom :
    ((0 <= Tile.y t - 1)%Q /\
     exists u, bottom = [u] /\ (Tile.y u == Tile.y t - 1)%Q /\ Tile.z u = Tile.z t) \/
    ((Tile.y t - 1 < 0)%Q /\ bottom = []);
  layout_left :
    (Tile.x l == wrap_column numX (Tile.x t - 1))%Q /\
    (Tile.y l == Tile.y t)%Q /\ Tile.z l = Tile.z t
}.

Definition levels_three_wide : list LevelProperties :=
  [ props 1536 512 512 512 ].

Definition levels_one_column : list LevelProperties :=
  [ props 512 1024 512 256 ].

(** [clamp] as the spec (4.5) uses it: the value itself inside
    [lo .. hi], the nearer bound outside. *)
Definition clamp_between (v lo hi : Z) : Z :=
  if v <? lo then lo else if hi <? v then hi else v.

Definition view_ahead : View.t :=
  {| View.yaw := 0%R; View.pitch := 0%R; View.width := 800; View.height := 600 |}.

Definition levels_two_rows : list LevelProperties :=
  [ props 512 512 512 256 ].

Definition levels_constant_tiles : list LevelProperties :=
  [ props 512 512 512 512; props 1024 1024 512 512; props 2048 2048 512 512 ].

Definition view_at_zenith : View.t :=
  {| View.yaw := 0%R; View.pitch := PI; View.width := 800; View.height := 600 |}.

(** The dimensions of the level are integers that a double holds
    exactly. *)
Definition held_exactly (level : Level.t) : Prop :=
  Level.width level < 2 ^ 53 /\ Level.height level < 2 ^ 53 /\
  Level.tileWidth level < 2 ^ 53 /\ Level.tileHeight level < 2 ^ 53.

(** Levels 896 wide with tiles of 64 and 8064 wide with tiles of 448, as
    wide as the divisibility invariant wants them: 14 and 18 tile
    columns. *)
Definition levels_nine_sevenths : list LevelProperties :=
  [ props 896 512 64 512; props 8064 512 448 512 ].

Definition levels_four_columns : list LevelProperties :=
  [ props 2048 1024 512 512 ].

Definition levels_sixteen_columns : list LevelProperties :=
  [ props 8192 4096 512 512 ].

(** A yaw of [-1e-17]: a hair to the left of the centre of the image. *)
Definition view_left_of_centre : Double.view :=
  {| Double.yaw := (-0x1.70ef54646d497p-57)%float; Double.pitch := 0%float |}.

(** The same yaw as a real number: the value of the double [-1e-17]. *)
Definition view_left_of_centre_exact : View.t :=
  {| View.yaw := (- IZR 6490371073168535 / IZR (2 ^ 109))%R; View.pitch := 0%R;
     View.width := 800; View.height := 600 |}.

(** A yaw of [Math.PI]: looking backwards. *)
Definition view_backwards : Double.view :=
  {| Double.yaw := Double.PI; Double.pitch := 0%float |}.

Definition view_up_and_right : Double.view :=
  {| Double.yaw := 1%float; Double.pitch := 0x1.3333333333333p-2%float |}.

(** A level of width 0 below an ordinary one. *)
Definition levels_zero_width : list LevelProperties :=
  [ props 0 512 512 512; props 1024 512 512 512 ].

(** ** Properties *)

(** *** Construction *)

Lemma validation_reports_the_failure :
  Level._validateWithParentLevel
    (Level.create 1 (props 1000 1000 512 512))
    (Level.create 0 (props 512 512 512 512))
  = Some (Js.JsError "Level width must be multiple of parent level: 1000 vs. 512").
Proof. reflexivity. Qed.

(** Whatever the levels are, a non-empty array is accepted. *)
Lemma new_accepts_every_nonempty_array (ps : list LevelProperties) :
  ps <> [] ->
  EquirectTileGeometry.new (EquirectTileGeometry.Array ps) =
  Js.Return {| levelList := EquirectTileGeometry.makeLevelList ps;
               selectableLevelList := EquirectTileGeometry.makeLevelList ps;
               _neighborsCache := LruMap.create neighborsCacheSize |}.
Proof.
  destruct ps as [|p ps]; [congruence|]. intros _. reflexivity.
Qed.

(** C1 (defect in the code).  The level list [512, 1000] fails the
    divisibility test, [_validateWithParentLevel] builds the error for it,
    and the constructor nevertheless returns a geometry: the error is
    returned by the validation method, not thrown, and the constructor
    drops the value. *)
Theorem C1_construction_drops_validation_error :
  In (Some (Js.JsError "Level width must be multiple of parent level: 1000 vs. 512"))
     (EquirectTileGeometry.validation_results
        (EquirectTileGeometry.makeLevelList levels_not_multiple)) /\
  ~ hierarchy_invariant (EquirectTileGeometry.makeLevelList levels_not_multiple) /\
  exists g, EquirectTileGeometry.new (EquirectTileGeometry.Array levels_not_multiple)
            = Js.Return g /\
            List.length (levelList g) = 2%nat.
Proof.
  split; [left; reflexivity|]. split.
  - intro H. specialize (H 0%nat _ _ eq_refl eq_refl).
    destruct H as [H _]. vm_compute in H. discriminate.
  - eexists. split; [reflexivity|reflexivity].
Qed.

(** *** Empty viewport *)

(** C2 (amended).  With a viewport of zero width or zero height
    [visibleTiles] returns normally: the result is the caller's list as it
    was passed (the empty list when none was passed), no error is raised,
    and neither the closest tile nor the search is evaluated (the geometry,
    cache included, is unchanged). *)
Theorem C2_visibleTiles_empty_viewport_returns
        (search : Geometry.t -> View.t -> Tile.t -> list Tile.t ->
                  Z * list Tile.t * Geometry.t)
        (this : Geometry.t) (view : View.t) (level : Level.t)
        (result : option (list Tile.t)) :
  View.width view = 0 \/ View.height view = 0 ->
  EquirectTileGeometry.visibleTiles search this view level result =
  Js.Return (match result with Some r => r | None => [] end, this).
Proof.
  intros H. unfold EquirectTileGeometry.visibleTiles.
  replace ((View.width view =? 0) || (View.height view =? 0)) with true.
  - reflexivity.
  - symmetry. apply orb_true_iff.
    destruct H as [H|H]; rewrite H; [left|right]; reflexivity.
Qed.

Lemma C2_visibleTiles_empty_viewport_returns_witness :
  (View.width view_zero_width = 0 \/ View.height view_zero_width = 0) /\
  EquirectTileGeometry.visibleTiles search_nothing geometry_single
    view_zero_width (Level.create 0 (props 512 512 512 512)) None =
  Js.Return ([], geometry_single).
Proof.
  split.
  - left; reflexivity.
  - apply (C2_visibleTiles_empty_viewport_returns
             search_nothing geometry_single view_zero_width
             (Level.create 0 (props 512 512 512 512)) None).
    left; reflexivity.
Defined.

(** C2 as stated fails: with a viewport of zero width the call does not
    raise an error, it returns. *)
Lemma C2_empty_viewport_raises_no_error :
  ~ (forall search this view level result,
        View.width view = 0 \/ View.height view = 0 ->
        exists e,
          EquirectTileGeometry.visibleTiles search this view level result
          = Js.Throw e).
Proof.
  intro H.
  destruct (H search_nothing geometry_single view_zero_width
              (Level.create 0 (props 512 512 512 512)) None
              (or_introl eq_refl)) as [e He].
  unfold EquirectTileGeometry.visibleTiles in He. simpl in He. discriminate.
Qed.

(** *** maxTileSize *)

Lemma max2_NaN_r (n : Js.number) : Js.max2 n Js.NaN = Js.NaN.
Proof. destruct n; reflexivity. Qed.

Lemma maxTileSize_step (acc : Js.number) (level : Level.t) :
  Js.Math_max (Js.Num acc) [Level.get_tileWidth level; Level.get_tileHeight level]
  = Js.NaN.
Proof.
  unfold Js.Math_max. simpl. now rewrite !max2_NaN_r.
Qed.

(** Both [level.tileWidth] and [level.tileHeight] are read, not called, so
    every turn of the loop yields [NaN]. *)
Lemma maxTileSize_NaN (this : Geometry.t) :
  levelList this <> [] -> EquirectTileGeometry.maxTileSize this = Js.NaN.
Proof.
  unfold EquirectTileGeometry.maxTileSize.
  destruct (levelList this) as [|l0 ls]; [congruence|]. intros _.
  simpl. rewrite maxTileSize_step.
  induction ls as [|l ls IH]; simpl; [reflexivity|].
  now rewrite maxTileSize_step.
Qed.

(** C3 (defect in the code).  For the geometry built from the single level
    512x512 with 512x512 tiles the largest tile dimension is 512, and
    [maxTileSize] returns [NaN]. *)
Theorem C3_maxTileSize_returns_NaN :
  EquirectTileGeometry.new (EquirectTileGeometry.Array levels_single)
  = Js.Return geometry_single /\
  max_tile_dimension (levelList geometry_single) = 512 /\
  EquirectTileGeometry.maxTileSize geometry_single = Js.NaN.
Proof. repeat split. Qed.

(** *** Subdivision ratios *)

Lemma inject_Z_pos (n : Z) : 0 < n -> (0 < inject_Z n)%Q.
Proof. intro H. unfold Qlt; simpl. lia. Qed.

Lemma inject_Z_nonzero (n : Z) : n <> 0 -> ~ (inject_Z n == 0)%Q.
Proof. intros H E. unfold Qeq in E; simpl in E. lia. Qed.

Lemma Qdiv_inject_Z_mult (c d : Z) :
  d <> 0 -> (inject_Z (c * d) / inject_Z d == inject_Z c)%Q.
Proof.
  intro H. rewrite inject_Z_mult. field. now apply inject_Z_nonzero.
Qed.

(** The number of tiles of an exactly tiled extent. *)
Lemma tiles_exact (c tile : Z) :
  tile <> 0 -> Qceiling (inject_Z (c * tile) / inject_Z tile) = c.
Proof.
  intro H. rewrite (Qceiling_comp _ _ (Qdiv_inject_Z_mult c tile H)).
  apply Qceiling_Z.
Qed.

(** The number of tiles is positive for positive sizes. *)
Lemma tiles_positive (size tile : Z) :
  0 < size -> 0 < tile -> 0 < Qceiling (inject_Z size / inject_Z tile).
Proof.
  intros Hs Ht.
  assert (Hq : (0 < inject_Z size / inject_Z tile)%Q).
  { apply Qlt_shift_div_l; [now apply inject_Z_pos|].
    rewrite Qmult_0_l. now apply inject_Z_pos. }
  pose proof (Qle_ceiling (inject_Z size / inject_Z tile)) as Hc.
  assert (Hlt : (inject_Z 0 < inject_Z (Qceiling (inject_Z size / inject_Z tile)))%Q).
  { eapply Qlt_le_trans; [exact Hq|exact Hc]. }
  now rewrite <- Zlt_Qlt in Hlt.
Qed.

Lemma numHorizontalTiles_positive (l : Level.t) :
  Level.positive l -> 0 < Level.numHorizontalTiles l.
Proof. intros (Hw & _ & Htw & _). now apply tiles_positive. Qed.

Lemma numVerticalTiles_positive (l : Level.t) :
  Level.positive l -> 0 < Level.numVerticalTiles l.
Proof. intros (_ & Hh & _ & Hth). now apply tiles_positive. Qed.

(** One axis of the amended C4: sizes [W' = a W], tiles [t' = b t], the
    coarser extent exactly tiled and [b] dividing [a]. *)
Lemma ratio_integral_axis (W W' t t' : Z) :
  0 < W -> 0 < W' -> 0 < t -> 0 < t' ->
  Z.rem W' W = 0 -> Z.rem t' t = 0 ->
  W mod t = 0 -> (W' / W) mod (t' / t) = 0 ->
  integral (inject_Z (Qceiling (inject_Z W' / inject_Z t')) /
            inject_Z (Qceiling (inject_Z W / inject_Z t)))%Q.
Proof.
  intros HW HW' Ht Ht' HrW Hrt Hex Hnest.
  rewrite Z.rem_mod_nonneg in HrW by lia.
  rewrite Z.rem_mod_nonneg in Hrt by lia.
  apply Z.mod_divide in HrW; [|lia]. destruct HrW as [a Ha].
  apply Z.mod_divide in Hrt; [|lia]. destruct Hrt as [b Hb].
  apply Z.mod_divide in Hex; [|lia]. destruct Hex as [c Hc].
  assert (Hb0 : 0 < b) by nia.
  assert (Hc0 : 0 < c) by nia.
  assert (Ea : W' / W = a) by (subst W'; apply Z.div_mul; lia).
  assert (Eb : t' / t = b) by (subst t'; apply Z.div_mul; lia).
  rewrite Ea, Eb in Hnest.
  apply Z.mod_divide in Hnest; [|lia]. destruct Hnest as [d Hd].
  exists d.
  replace W' with ((d * c) * t') by (subst; ring).
  rewrite (tiles_exact (d * c) t') by lia.
  replace W with (c * t) at 1 by (subst; ring).
  rewrite (tiles_exact c t) by lia.
  apply Qdiv_inject_Z_mult. lia.
Qed.

(** C4 (amended).  In a level list of positive levels that satisfies the
    divisibility invariant, for every level [i > 0] whose predecessor is
    tiled exactly and whose tile-size factor divides its level-size factor,
    the ratios of tile columns and of tile rows that [parent] divides by
    are integers. *)
Theorem C4_ratios_integral_when_tiling_nested
        (levelList : list Level.t) (i : nat) (level parentLevel : Level.t) :
  Forall Level.positive levelList ->
  hierarchy_invariant levelList ->
  nth_error levelList (S i) = Some level ->
  nth_error levelList i = Some parentLevel ->
  exactly_tiled parentLevel ->
  growth_nested level parentLevel ->
  integral (ratio_x level parentLevel) /\ integral (ratio_y level parentLevel).
Proof.
  intros Hpos Hinv Hl Hp [Hex Hey] [Hnx Hny].
  destruct (Hinv i level parentLevel Hl Hp) as (Dw & Dh & Dtw & Dth).
  rewrite Forall_forall in Hpos.
  destruct (Hpos level (nth_error_In _ _ Hl)) as (Pw & Ph & Ptw & Pth).
  destruct (Hpos parentLevel (nth_error_In _ _ Hp)) as (Qw & Qh & Qtw & Qth).
  split.
  - now apply ratio_integral_axis.
  - now apply ratio_integral_axis.
Qed.

Lemma divisibleb_sound (level parentLevel : Level.t) :
  divisibleb level parentLevel = true -> divisible level parentLevel.
Proof.
  unfold divisibleb, divisible. rewrite !andb_true_iff, !Z.eqb_eq. tauto.
Qed.

Lemma hierarchy_invariantb_sound (levelList : list Level.t) :
  hierarchy_invariantb levelList = true -> hierarchy_invariant levelList.
Proof.
  induction levelList as [|p rest IH]; intros H i level parentLevel Hl Hp.
  - destruct i; discriminate.
  - destruct rest as [|l rest']; [destruct i; discriminate|].
    simpl in H. apply andb_true_iff in H. destruct H as [Hd Hr].
    destruct i as [|i].
    + simpl in Hl, Hp. injection Hl as <-. injection Hp as <-.
      now apply divisibleb_sound.
    + apply (IH Hr i level parentLevel); assumption.
Qed.

Lemma positiveb_sound (l : Level.t) : Level.positiveb l = true -> Level.positive l.
Proof.
  unfold Level.positiveb, Level.positive.
  rewrite !andb_true_iff, !Z.ltb_lt. tauto.
Qed.

Lemma all_positive_sound (levelList : list Level.t) :
  forallb Level.positiveb levelList = true -> Forall Level.positive levelList.
Proof.
  rewrite forallb_forall, Forall_forall. intros H l Hl.
  apply positiveb_sound, H, Hl.
Qed.

Lemma C4_ratios_integral_when_tiling_nested_witness :
  integral (ratio_x (Level.create 1 (props 1536 1536 256 256))
                    (Level.create 0 (props 512 512 256 256))) /\
  integral (ratio_y (Level.create 1 (props 1536 1536 256 256))
                    (Level.create 0 (props 512 512 256 256))).
Proof.
  apply (C4_ratios_integral_when_tiling_nested
           (EquirectTileGeometry.makeLevelList levels_tripling) 0).
  - apply all_positive_sound. vm_compute. reflexivity.
  - apply hierarchy_invariantb_sound. vm_compute. reflexivity.
  - reflexivity.
  - reflexivity.
  - split; vm_compute; reflexivity.
  - split; vm_compute; reflexivity.
Defined.

(** C4 as stated fails: levels 512 wide with 256 tiles and 1536 wide with
    512 tiles are positive and divisible (1536 = 3 * 512, 512 = 2 * 256),
    yet they have 2 and 3 tile columns and 3/2 is no integer. *)
Lemma C4_invariant_allows_fractional_ratio :
  ~ (forall levelList : list Level.t,
        Forall Level.positive levelList ->
        hierarchy_invariant levelList ->
        forall i level parentLevel,
          nth_error levelList (S i) = Some level ->
          nth_error levelList i = Some parentLevel ->
          integral (ratio_x level parentLevel) /\
          integral (ratio_y level parentLevel)).
Proof.
  intro H.
  destruct (H (EquirectTileGeometry.makeLevelList levels_three_over_two)) with
    (i := 0%nat)
    (level := Level.create 1 (props 1536 1536 512 512))
    (parentLevel := Level.create 0 (props 512 512 256 256))
    as [[k Hk] _].
  - apply all_positive_sound. vm_compute. reflexivity.
  - apply hierarchy_invariantb_sound. vm_compute. reflexivity.
  - reflexivity.
  - reflexivity.
  - assert (E : (ratio_x (Level.create 1 (props 1536 1536 512 512))
                         (Level.create 0 (props 512 512 256 256)) == 3 # 2)%Q)
      by reflexivity.
    rewrite E in Hk. unfold Qeq in Hk. simpl in Hk. lia.
Qed.

Example tiles_three_over_two :
  map Level.numHorizontalTiles
      (EquirectTileGeometry.makeLevelList levels_three_over_two) = [2; 3].
Proof. reflexivity. Qed.

(** *** Loops and floors *)

Lemma Qle_bool_false (a b : Q) : Qle_bool a b = false -> (b < a)%Q.
Proof.
  intro H. apply Qnot_le_lt. intro Hle.
  apply Qle_bool_iff in Hle. congruence.
Qed.

(** Case analysis on a comparison of rationals. *)
Tactic Notation "qle_case" constr(a) constr(b) ident(E) :=
  destruct (Qle_bool a b) eqn:E;
  [apply Qle_bool_iff in E | apply Qle_bool_false in E]; cbn [negb].

(** With enough fuel the loop visits exactly the integers from [i] up that
    are below the bound. *)
Lemma for_from_spec (fuel : nat) :
  forall (i : Z) (bound : Q),
    Qceiling bound - i <= Z.of_nat fuel ->
    forall k, In k (Js.for_from fuel i bound) <-> i <= k /\ (inject_Z k < bound)%Q.
Proof.
  induction fuel as [|fuel IH]; intros i bound Hfuel k; simpl.
  - split; [tauto|]. intros [Hik Hkb].
    pose proof (Qle_ceiling bound) as Hc.
    assert (Hlt : (inject_Z k < inject_Z (Qceiling bound))%Q)
      by (eapply Qlt_le_trans; eassumption).
    rewrite <- Zlt_Qlt in Hlt. lia.
  - destruct (Qle_bool bound (inject_Z i)) eqn:E.
    + apply Qle_bool_iff in E. split; [intros []|]. intros [Hik Hkb].
      assert (Hlt : (inject_Z k < inject_Z i)%Q)
        by (eapply Qlt_le_trans; eassumption).
      rewrite <- Zlt_Qlt in Hlt. lia.
    + apply Qle_bool_false in E. simpl. rewrite IH by lia. split.
      * intros [<-|[Hik Hkb]]; split; auto; lia.
      * intros [Hik Hkb]. destruct (Z.eq_dec i k); [now left|right].
        split; [lia|assumption].
Qed.

Lemma for_indices_spec (bound : Q) (k : Z) :
  In k (Js.for_indices bound) <-> 0 <= k /\ (inject_Z k < bound)%Q.
Proof.
  unfold Js.for_indices. apply for_from_spec.
  destruct (Z.le_gt_cases 0 (Qceiling bound)); lia.
Qed.

Lemma Qfloor_unique (q : Q) (k : Z) :
  (inject_Z k <= q)%Q -> (q < inject_Z (k + 1))%Q -> Qfloor q = k.
Proof.
  intros Hlo Hhi.
  pose proof (Qfloor_le q) as Hf. pose proof (Qlt_floor q) as Hg.
  assert (H1 : (inject_Z (Qfloor q) < inject_Z (k + 1))%Q)
    by (eapply Qle_lt_trans; eassumption).
  assert (H2 : (inject_Z k < inject_Z (Qfloor q + 1))%Q)
    by (eapply Qle_lt_trans; eassumption).
  rewrite <- Zlt_Qlt in H1, H2. lia.
Qed.

(** The arithmetic of the round trip: dividing [r * c + d] by [r] and
    taking the floor gives back the integer [c] when [0 <= d < r]. *)
Lemma floor_of_child (r x : Q) (c d : Z) :
  (0 < r)%Q -> (x == inject_Z c)%Q -> 0 <= d -> (inject_Z d < r)%Q ->
  (Js.Math_floor ((r * x + inject_Z d) / r) == x)%Q.
Proof.
  intros Hr Hx Hd Hdr. unfold Js.Math_floor.
  assert (H0 : (0 <= inject_Z d)%Q) by (rewrite <- (Zle_Qle 0); lia).
  rewrite Hx at 2. apply inject_Z_injective.
  apply Qfloor_unique; rewrite Hx.
  - apply Qle_shift_div_l; [assumption|]. Lqa.lra.
  - apply Qlt_shift_div_r; [assumption|].
    rewrite inject_Z_plus. change (inject_Z 1) with 1%Q. Lqa.lra.
Qed.

(** *** Parent and children *)

Lemma at_index_exists {A : Type} (l : list A) (i : Z) :
  0 <= i < Z.of_nat (List.length l) -> exists a, at_index l i = Some a.
Proof.
  intros [Hlo Hhi]. unfold at_index.
  destruct (i <? 0) eqn:E; [apply Z.ltb_lt in E; lia|].
  destruct (nth_error l (Z.to_nat i)) as [a|] eqn:En; [now exists a|].
  apply nth_error_None in En. lia.
Qed.

Lemma at_index_In {A : Type} (l : list A) (i : Z) (a : A) :
  at_index l i = Some a -> In a l.
Proof.
  unfold at_index. destruct (i <? 0); [discriminate|]. apply nth_error_In.
Qed.

Lemma ratio_positive (n m : Z) : 0 < n -> 0 < m -> (0 < inject_Z n / inject_Z m)%Q.
Proof.
  intros Hn Hm. apply Qlt_shift_div_l; [now apply inject_Z_pos|].
  rewrite Qmult_0_l. now apply inject_Z_pos.
Qed.

Lemma zero_in_for_indices (bound : Q) : (0 < bound)%Q -> In 0 (Js.for_indices bound).
Proof. intro H. apply for_indices_spec. split; [lia|exact H]. Qed.

Lemma at_index_range {A : Type} (l : list A) (i : Z) (a : A) :
  at_index l i = Some a -> 0 <= i < Z.of_nat (List.length l).
Proof.
  unfold at_index. destruct (Z.ltb_spec i 0) as [|H0]; [discriminate|].
  intro H. assert (Hn : nth_error l (Z.to_nat i) <> None) by congruence.
  apply nth_error_Some in Hn. lia.
Qed.

(** A child of an integer tile under an integer scale is an integer
    tile. *)
Lemma child_coordinate_integral (r x : Q) (d : Z) :
  integral r -> integral x -> integral (r * x + inject_Z d).
Proof.
  intros [kr Hr] [kx Hx]. exists (kr * kx + d).
  rewrite Hr, Hx, inject_Z_plus, inject_Z_mult. reflexivity.
Qed.




Example tiles_nine_sevenths :
  map Level.numHorizontalTiles
      (EquirectTileGeometry.makeLevelList levels_nine_sevenths) = [14; 18].
Proof. reflexivity. Qed.

(** On the same levels the exact quotient is 7: the round trip of
    (7,0,0) fails by rounding alone. *)
Example parent_nine_sevenths_exact :
  match EquirectTile.parent (geometry_of levels_nine_sevenths) (tile 9 0 1) with
  | Js.Return (Some p) => Tile.equals p (tile 7 0 0) = true
  | _ => False
  end.
Proof. vm_compute. reflexivity. Qed.

(** With a ratio that is no integer the children of an integer tile need
    not be integer tiles, and the round trip fails for such a tile without
    any rounding: on levels of 2, 3 and 9 columns the tile (3/2, 0, 1)
    has the child (9/2, 0, 2), whose parent is (1, 0, 1). *)
Example parent_of_child_of_fractional_tile :
  match EquirectTile.children
          (geometry_of [props 512 512 256 256; props 1536 1536 512 512;
                        props 4608 4608 512 512])
          (Tile.mk (3 # 2) 0 1) None with
  | Js.Return (Some (c :: _)) =>
      (Tile.x c == 9 # 2)%Q /\
      match EquirectTile.parent
              (geometry_of [props 512 512 256 256; props 1536 1536 512 512;
                            props 4608 4608 512 512]) c with
      | Js.Return (Some p) => (Tile.x p == 1)%Q
      | _ => False
      end
  | _ => False
  end.
Proof. vm_compute. split; reflexivity. Qed.

(** Where the ratio is an integer the doubles of the code are exact: the
    four children of (1,0,1) between levels of 2 and 4 columns, and their
    parents, computed in doubles. *)
Example round_trip_in_doubles :
  match Double.children (geometry_of levels_constant_tiles) (Double.mk 1 0 1) None with
  | Double.Returns (Some cs) =>
      cs = [Double.mk 2 0 2; Double.mk 2 1 2; Double.mk 3 0 2; Double.mk 3 1 2] /\
      forallb (fun c =>
                 match Double.parent (geometry_of levels_constant_tiles) c with
                 | Double.Returns (Some p) => Double.equals p (Double.mk 1 0 1)
                 | _ => false
                 end) cs = true
  | _ => False
  end.
Proof. vm_compute. split; reflexivity. Qed.

(** Below a level of width 0 the scale is [2 / 0 = Infinity] and the loop
    of [children] has no end. *)
Example children_of_zero_width_level :
  Double.children (geometry_of levels_zero_width) (Double.mk 0 0 0) None
  = Double.NeverReturns.
Proof. vm_compute. reflexivity. Qed.

(** The cases of the test suite: constant, doubling and tripling tiles. *)
Example children_tripling_count :
  match EquirectTile.children (geometry_of levels_tripling) (tile 1 0 0) None with
  | Js.Return (Some cs) =>
      List.length cs = 9%nat /\
      forallb (fun c => existsb (Tile.equals c) cs)
              [tile 3 0 1; tile 5 0 1; tile 3 2 1; tile 5 2 1] = true
  | _ => False
  end.
Proof. vm_compute. split; reflexivity. Qed.

Example parent_tripling :
  match EquirectTile.parent (geometry_of levels_tripling) (tile 4 2 1) with
  | Js.Return (Some p) => Tile.equals p (tile 1 0 0) = true
  | _ => False
  end.
Proof. vm_compute. reflexivity. Qed.

Example parent_of_coarsest :
  EquirectTile.parent (geometry_of levels_tripling) (tile 0 0 0) = Js.Return None.
Proof. reflexivity. Qed.

(** *** The neighbour cache *)

Lemma equals_same_address (k t : Tile.t) :
  Tile.equals k t = true <-> same_address k t.
Proof.
  unfold Tile.equals, same_address.
  rewrite !andb_true_iff, !Qeq_bool_iff, Z.eqb_eq. tauto.
Qed.

Lemma lookup_Some (k : Tile.t) (es : list (Tile.t * list Tile.t)) k0 v0 :
  LruMap.lookup k es = Some (k0, v0) ->
  In (k0, v0) es /\ Tile.equals k0 k = true.
Proof.
  induction es as [|[k1 v1] es IH]; simpl; [discriminate|].
  destruct (Tile.equals k1 k) eqn:E.
  - intros [= <- <-]. split; [now left|assumption].
  - intro H. destruct (IH H) as [Hin He]. split; [now right|assumption].
Qed.

Lemma remove_subset (k : Tile.t) (es : list (Tile.t * list Tile.t)) e :
  In e (LruMap.remove k es) -> In e es.
Proof. unfold LruMap.remove. intro H. apply filter_In in H. tauto. Qed.

Lemma firstn_subset {A : Type} (n : nat) (l : list A) (a : A) :
  In a (firstn n l) -> In a l.
Proof.
  revert l. induction n as [|n IH]; intros [|b l]; simpl; try tauto.
  intros [H|H]; [now left|right; now apply IH].
Qed.

Lemma new_coherent (a : EquirectTileGeometry.argument) (g : Geometry.t) :
  EquirectTileGeometry.new a = Js.Return g -> coherent g.
Proof.
  destruct a as [ps|]; [|discriminate]. unfold EquirectTileGeometry.new.
  destruct (EquirectTileGeometry.makeSelectableLevelList
              (EquirectTileGeometry.makeLevelList ps)); simpl; [discriminate|].
  intros [= <-] k v []. 
Qed.

(** What a call of [neighbors] returns, and that it keeps the cache
    coherent: the list is the one computed for a tile object with the same
    address as the receiver (the receiver itself on a miss). *)
Lemma neighbors_returns (g : Geometry.t) (t : Tile.t) (level : Level.t) :
  coherent g ->
  EquirectTile._level g t = Some level ->
  exists res g' k,
    EquirectTile.neighbors g t = Js.Return (res, g') /\
    same_address k t /\
    res = EquirectTile.compute_neighbors level k /\
    levelList g' = levelList g /\
    coherent g'.
Proof.
  intros Hcoh Hlevel. unfold EquirectTile.neighbors, LruMap.get.
  destruct (LruMap.lookup t (LruMap.entries (_neighborsCache g)))
    as [[k0 v0]|] eqn:El.
  - apply lookup_Some in El. destruct El as [Hin He].
    apply equals_same_address in He.
    destruct (Hcoh k0 v0 Hin) as (level0 & Hl0 & Hv0).
    assert (level0 = level).
    { unfold EquirectTile._level in *. destruct He as (_ & _ & Ez).
      rewrite Ez in Hl0. congruence. }
    subst level0.
    eexists _, _, k0. split; [reflexivity|]. repeat split; try apply He; auto.
    intros k v [Hkv|Hkv]; simpl in Hkv.
    + injection Hkv as <- <-. exists level. split; [exact Hl0|exact Hv0].
    + apply remove_subset in Hkv. apply (Hcoh k v Hkv).
  - unfold EquirectTile.the_level. rewrite Hlevel. simpl.
    eexists _, _, t. split; [reflexivity|].
    repeat split; try reflexivity.
    intros k v Hkv. simpl in Hkv. apply firstn_subset in Hkv.
    destruct Hkv as [Hkv|Hkv].
    + injection Hkv as <- <-. exists level. split; [exact Hlevel|reflexivity].
    + apply remove_subset in Hkv. apply (Hcoh k v Hkv).
Qed.

(** A call of [neighbors] that returns was made on a tile of an existing
    level. *)
Lemma neighbors_return_level (g : Geometry.t) (t : Tile.t) res g' :
  coherent g ->
  EquirectTile.neighbors g t = Js.Return (res, g') ->
  exists level, EquirectTile._level g t = Some level.
Proof.
  intros Hcoh. unfold EquirectTile.neighbors, LruMap.get.
  destruct (LruMap.lookup t (LruMap.entries (_neighborsCache g)))
    as [[k0 v0]|] eqn:El.
  - intros _. apply lookup_Some in El. destruct El as [Hin He].
    apply equals_same_address in He. destruct He as (_ & _ & Ez).
    destruct (Hcoh k0 v0 Hin) as (level & Hl & _).
    exists level. unfold EquirectTile._level in *. now rewrite <- Ez.
  - unfold EquirectTile.the_level.
    destruct (EquirectTile._level g t) as [level|]; [|discriminate].
    intros _. now exists level.
Qed.

(** The cache stays coherent, and the level list unchanged, in every state
    reached from a coherent one; the constructor starts in such a state
    ([new_coherent]). *)
Lemma reachable_coherent (g0 g : Geometry.t) :
  coherent g0 -> reachable g0 g -> coherent g /\ levelList g = levelList g0.
Proof.
  intros H0 Hreach. induction Hreach as [|g t res g' _ [IHc IHl] Hcall].
  - split; [exact H0|reflexivity].
  - destruct (neighbors_return_level g t res g' IHc Hcall) as [level Hlevel].
    destruct (neighbors_returns g t level IHc Hlevel)
      as (res1 & g1 & k & Hret & _ & _ & Hlist & Hcoh1).
    rewrite Hcall in Hret. injection Hret as <- <-.
    split; [exact Hcoh1|congruence].
Qed.

(** *** The neighbour candidates *)

Lemma wrap_column_comp (numX : Z) (a b : Q) :
  (a == b)%Q -> (wrap_column numX a == wrap_column numX b)%Q.
Proof.
  intro H. unfold wrap_column.
  qle_case 0%Q a Ea; qle_case 0%Q b Eb; try Lqa.lra.
  qle_case a (inject_Z numX) Fa; qle_case b (inject_Z numX) Fb;
    try Lqa.lra; reflexivity.
Qed.

Lemma wrap_column_past_last (numX : Z) (a : Q) :
  0 <= numX -> (a == inject_Z numX + 1)%Q -> (wrap_column numX a == 0)%Q.
Proof.
  intros Hn H. assert (H0 : (0 <= inject_Z numX)%Q) by (rewrite <- (Zle_Qle 0); lia).
  unfold wrap_column.
  qle_case 0%Q a Ea; [|Lqa.lra].
  qle_case a (inject_Z numX) Fa; [Lqa.lra|reflexivity].
Qed.

Lemma wrap_column_before_first (numX : Z) (a : Q) :
  0 <= numX -> (a == 0 - 1)%Q -> (wrap_column numX a == inject_Z numX)%Q.
Proof.
  intros Hn H. assert (H0 : (0 <= inject_Z numX)%Q) by (rewrite <- (Zle_Qle 0); lia).
  unfold wrap_column.
  qle_case 0%Q a Ea; [Lqa.lra|].
  qle_case (inject_Z numX) (inject_Z numX) Fa; [reflexivity|Lqa.lra].
Qed.

Lemma wrap_column_inside (numX : Z) (a : Q) :
  (0 <= a)%Q -> (a <= inject_Z numX)%Q -> (wrap_column numX a == a)%Q.
Proof.
  intros H0 H1. unfold wrap_column.
  qle_case 0%Q a Ea; [|Lqa.lra].
  qle_case a (inject_Z numX) Fa; [reflexivity|Lqa.lra].
Qed.

(** A candidate whose row is inside the level is pushed. *)
Lemma candidate_pushed (numX numY : Z) (k : Tile.t) (offset : Z * Z) :
  (0 <= Tile.y k + inject_Z (snd offset))%Q ->
  (Tile.y k + inject_Z (snd offset) <= inject_Z numY)%Q ->
  EquirectTile.neighbor_candidate numX numY k offset =
  Some (Tile.mk (wrap_column numX (Tile.x k + inject_Z (fst offset)))
                (Tile.y k + inject_Z (snd offset)) (Tile.z k)).
Proof.
  intros H0 H1. unfold EquirectTile.neighbor_candidate.
  apply Qle_bool_iff in H0. apply Qle_bool_iff in H1.
  rewrite H0, H1. reflexivity.
Qed.

(** A candidate whose row is outside the level is left out. *)
Lemma candidate_omitted (numX numY : Z) (k : Tile.t) (offset : Z * Z) :
  (Tile.y k + inject_Z (snd offset) < 0)%Q \/
  (inject_Z numY < Tile.y k + inject_Z (snd offset))%Q ->
  EquirectTile.neighbor_candidate numX numY k offset = None.
Proof.
  intros H. unfold EquirectTile.neighbor_candidate.
  qle_case 0%Q (Tile.y k + inject_Z (snd offset))%Q E0; cbn [andb];
    [|reflexivity].
  qle_case (Tile.y k + inject_Z (snd offset))%Q (inject_Z numY) E1;
    [|reflexivity].
  destruct H; Lqa.lra.
Qed.

Lemma compute_neighbors_candidates (level : Level.t) (k : Tile.t) :
  EquirectTile.compute_neighbors level k =
  option_list (EquirectTile.neighbor_candidate
                 (Level.numHorizontalTiles level - 1)
                 (Level.numVerticalTiles level - 1) k (0, 1)) ++
  option_list (EquirectTile.neighbor_candidate
                 (Level.numHorizontalTiles level - 1)
                 (Level.numVerticalTiles level - 1) k (1, 0)) ++
  option_list (EquirectTile.neighbor_candidate
                 (Level.numHorizontalTiles level - 1)
                 (Level.numVerticalTiles level - 1) k (0, -1)) ++
  option_list (EquirectTile.neighbor_candidate
                 (Level.numHorizontalTiles level - 1)
                 (Level.numVerticalTiles level - 1) k (-1, 0)).
Proof.
  unfold EquirectTile.compute_neighbors, neighborOffsets. cbn [fold_left].
  destruct (EquirectTile.neighbor_candidate _ _ k (0, 1));
    destruct (EquirectTile.neighbor_candidate _ _ k (1, 0));
    destruct (EquirectTile.neighbor_candidate _ _ k (0, -1));
    destruct (EquirectTile.neighbor_candidate _ _ k (-1, 0)); reflexivity.
Qed.

(** The list computed for a tile object [k] has the layout of the
    neighbours of any tile [t] with the same address, provided the row of
    [t] lies inside the level. *)
Lemma compute_neighbors_layout (level : Level.t) (k t : Tile.t) :
  same_address k t ->
  (0 <= Tile.y t)%Q ->
  (Tile.y t <= inject_Z (Level.numVerticalTiles level - 1))%Q ->
  exists top r bottom l,
    neighbor_layout (Level.numHorizontalTiles level - 1)
                    (Level.numVerticalTiles level - 1) t
                    (EquirectTile.compute_neighbors level k) top r bottom l.
Proof.
  intros (Hx & Hy & Hz) Hy0 Hy1.
  rewrite compute_neighbors_candidates.
  set (numX := Level.numHorizontalTiles level - 1).
  set (numY := Level.numVerticalTiles level - 1) in *.
  rewrite (candidate_pushed numX numY k (1, 0)), (candidate_pushed numX numY k (-1, 0));
    cbn [fst snd]; change (inject_Z 0) with 0%Q; try Lqa.lra.
  eexists (option_list (EquirectTile.neighbor_candidate numX numY k (0, 1))),
          _,
          (option_list (EquirectTile.neighbor_candidate numX numY k (0, -1))),
          _.
  constructor.
  - cbn [option_list app]. reflexivity.
  - destruct (Qlt_le_dec (inject_Z numY) (Tile.y t + 1)) as [Hgt|Hle].
    + right. split; [exact Hgt|].
      rewrite candidate_omitted; [reflexivity|].
      right. cbn [snd]. change (inject_Z 1) with 1%Q. Lqa.lra.
    + left. split; [exact Hle|].
      rewrite candidate_pushed; cbn [fst snd]; change (inject_Z 1) with 1%Q;
        try Lqa.lra.
      eexists. split; [reflexivity|]. cbn. split; [Lqa.lra|exact Hz].
  - cbn. repeat split; try exact Hz; try Lqa.lra.
    apply wrap_column_comp. change (inject_Z 1) with 1%Q. Lqa.lra.
  - destruct (Qlt_le_dec (Tile.y t - 1) 0) as [Hlt|Hge].
    + right. split; [exact Hlt|].
      rewrite candidate_omitted; [reflexivity|].
      left. cbn [snd]. change (inject_Z (-1)) with (-1 # 1)%Q. Lqa.lra.
    + left. split; [exact Hge|].
      rewrite candidate_pushed; cbn [fst snd];
        change (inject_Z (-1)) with (-1 # 1)%Q; try Lqa.lra.
      eexists. split; [reflexivity|]. cbn. split; [Lqa.lra|exact Hz].
  - cbn. repeat split; try exact Hz; try Lqa.lra.
    apply wrap_column_comp. change (inject_Z (-1)) with (-1 # 1)%Q. Lqa.lra.
Qed.

(** [neighbors] returns, keeps the cache coherent, and its list has the
    neighbour layout, whether it comes from the cache or is computed. *)
Lemma neighbors_layout (g : Geometry.t) (t : Tile.t) (level : Level.t) :
  coherent g ->
  EquirectTile._level g t = Some level ->
  (0 <= Tile.y t)%Q ->
  (Tile.y t <= inject_Z (Level.numVerticalTiles level - 1))%Q ->
  exists res g' top r bottom l,
    EquirectTile.neighbors g t = Js.Return (res, g') /\
    coherent g' /\
    neighbor_layout (Level.numHorizontalTiles level - 1)
                    (Level.numVerticalTiles level - 1) t res top r bottom l.
Proof.
  intros Hcoh Hlevel Hy0 Hy1.
  destruct (neighbors_returns g t level Hcoh Hlevel)
    as (res & g' & k & Hret & Hsame & Hres & _ & Hcoh').
  destruct (compute_neighbors_layout level k t Hsame Hy0 Hy1)
    as (top & r & bottom & l & Hlay).
  subst res. eexists _, g', top, r, bottom, l.
  split; [exact Hret|]. split; [exact Hcoh'|exact Hlay].
Qed.

Lemma layout_top_rows numX numY t res top r bottom l :
  neighbor_layout numX numY t res top r bottom l ->
  Forall (fun u => (Tile.y u == Tile.y t + 1)%Q /\ Tile.z u = Tile.z t) top.
Proof.
  intros [_ [[_ (u & -> & Hu)]|[_ ->]] _ _ _]; repeat constructor; tauto.
Qed.

Lemma layout_bottom_rows numX numY t res top r bottom l :
  neighbor_layout numX numY t res top r bottom l ->
  Forall (fun u => (Tile.y u == Tile.y t - 1)%Q /\ Tile.z u = Tile.z t) bottom.
Proof.
  intros [_ _ _ [[_ (u & -> & Hu)]|[_ ->]] _]; repeat constructor; tauto.
Qed.

Lemma Forall_weaken {A : Type} (P Q : A -> Prop) (l : list A) :
  (forall a, P a -> Q a) -> Forall P l -> Forall Q l.
Proof. intros H HP. eapply Forall_impl; eassumption. Qed.

(** Comparing two rationals that are integers. *)
Lemma Qle_bool_integers (p q : Q) (m n : Z) :
  (p == inject_Z m)%Q -> (q == inject_Z n)%Q -> Qle_bool p q = (m <=? n).
Proof.
  intros Hp Hq. destruct (Z.leb_spec m n) as [H|H].
  - apply Qle_bool_iff. rewrite Hp, Hq. now rewrite <- Zle_Qle.
  - destruct (Qle_bool p q) eqn:E; [|reflexivity].
    apply Qle_bool_iff in E. rewrite Hp, Hq in E. rewrite <- Zle_Qle in E. lia.
Qed.

(** One turn of the loop for a tile object in column [a] and row [b]:
    nothing is pushed when the row [b + dy] is outside the level;
    otherwise the tile pushed is in that row, and in the column [a + dx]
    after the two wrap tests. *)
Lemma candidate_integer (numX numY : Z) (k : Tile.t) (a b dx dy : Z) :
  (Tile.x k == inject_Z a)%Q -> (Tile.y k == inject_Z b)%Q ->
  Forall2 (fun u e => Tile.equals u e = true)
    (option_list (EquirectTile.neighbor_candidate numX numY k (dx, dy)))
    (if (0 <=? b + dy) && (b + dy <=? numY)
     then [tile (let c := if a + dx <? 0 then numX else a + dx in
                 if numX <? c then 0 else c)
                (b + dy) (Tile.z k)]
     else []).
Proof.
  intros Hx Hy. unfold EquirectTile.neighbor_candidate. cbn [fst snd].
  assert (HY : (Tile.y k + inject_Z dy == inject_Z (b + dy))%Q)
    by (rewrite inject_Z_plus, Hy; reflexivity).
  assert (HX : (Tile.x k + inject_Z dx == inject_Z (a + dx))%Q)
    by (rewrite inject_Z_plus, Hx; reflexivity).
  rewrite (Qle_bool_integers 0 _ 0 (b + dy) (Qeq_refl _) HY).
  rewrite (Qle_bool_integers _ (inject_Z numY) (b + dy) numY HY (Qeq_refl _)).
  rewrite (Qle_bool_integers 0 _ 0 (a + dx) (Qeq_refl _) HX).
  destruct ((0 <=? b + dy) && (b + dy <=? numY)); [|constructor].
  cbn [option_list]. constructor; [|constructor].
  apply equals_same_address. unfold same_address, tile. cbn.
  split; [|split; [exact HY|reflexivity]].
  destruct (Z.leb_spec 0 (a + dx)) as [A0|A0]; cbn [negb].
  - destruct (Z.ltb_spec (a + dx) 0) as [C|_]; [lia|].
    rewrite (Qle_bool_integers _ (inject_Z numX) (a + dx) numX HX (Qeq_refl _)).
    destruct (Z.leb_spec (a + dx) numX) as [A1|A1]; cbn [negb];
      destruct (Z.ltb_spec numX (a + dx)) as [D|D]; try lia;
      [exact HX|reflexivity].
  - destruct (Z.ltb_spec (a + dx) 0) as [_|C]; [|lia].
    rewrite (Qle_bool_integers (inject_Z numX) (inject_Z numX) numX numX
               (Qeq_refl _) (Qeq_refl _)).
    rewrite Z.leb_refl, Z.ltb_irrefl. reflexivity.
Qed.

(** The list computed for a tile object in column [a] and row [b] of the
    grid: the tile above when there is a row above, the tile to the right
    (column 0 past the last column), the tile below when there is a row
    below, the tile to the left (the last column before column 0). *)
Lemma compute_neighbors_integer (level : Level.t) (k : Tile.t) (a b : Z) :
  (Tile.x k == inject_Z a)%Q -> 0 <= a <= Level.numHorizontalTiles level - 1 ->
  (Tile.y k == inject_Z b)%Q -> 0 <= b <= Level.numVerticalTiles level - 1 ->
  Forall2 (fun u e => Tile.equals u e = true)
    (EquirectTile.compute_neighbors level k)
    ((if b + 1 <=? Level.numVerticalTiles level - 1
      then [tile a (b + 1) (Tile.z k)] else []) ++
     [tile (if a + 1 <=? Level.numHorizontalTiles level - 1 then a + 1 else 0)
           b (Tile.z k)] ++
     (if 0 <=? b - 1 then [tile a (b - 1) (Tile.z k)] else []) ++
     [tile (if 0 <=? a - 1 then a - 1 else Level.numHorizontalTiles level - 1)
           b (Tile.z k)]).
Proof.
  intros Hx Ha Hy Hb. rewrite compute_neighbors_candidates.
  set (numX := Level.numHorizontalTiles level - 1) in *.
  set (numY := Level.numVerticalTiles level - 1) in *.
  pose proof (candidate_integer numX numY k a b 0 1 Hx Hy) as T.
  pose proof (candidate_integer numX numY k a b 1 0 Hx Hy) as R.
  pose proof (candidate_integer numX numY k a b 0 (-1) Hx Hy) as B.
  pose proof (candidate_integer numX numY k a b (-1) 0 Hx Hy) as L.
  cbv zeta in T, R, B, L.
  replace (a + 0) with a in T, B by lia.
  replace (b + 0) with b in R, L by lia.
  replace (b + -1) with (b - 1) in B by lia.
  replace (a + -1) with (a - 1) in L by lia.
  repeat apply Forall2_app.
  - destruct (Z.leb_spec 0 (b + 1)); [|lia]. cbn [andb] in T.
    destruct (Z.ltb_spec a 0); [lia|]. destruct (Z.ltb_spec numX a); [lia|].
    exact T.
  - destruct (Z.leb_spec 0 b); [|lia]. destruct (Z.leb_spec b numY); [|lia].
    cbn [andb] in R.
    destruct (Z.ltb_spec (a + 1) 0); [lia|].
    destruct (Z.leb_spec (a + 1) numX); destruct (Z.ltb_spec numX (a + 1));
      try lia; exact R.
  - destruct (Z.leb_spec (b - 1) numY); [|lia]. rewrite andb_true_r in B.
    destruct (Z.ltb_spec a 0); [lia|]. destruct (Z.ltb_spec numX a); [lia|].
    exact B.
  - destruct (Z.leb_spec 0 b); [|lia]. destruct (Z.leb_spec b numY); [|lia].
    cbn [andb] in L.
    destruct (Z.leb_spec 0 (a - 1)); destruct (Z.ltb_spec (a - 1) 0); try lia.
    + destruct (Z.ltb_spec numX (a - 1)); [lia|]. exact L.
    + rewrite Z.ltb_irrefl in L. exact L.
Qed.

(** C6.  For a tile whose row lies inside a level with [N >= 1] tile
    columns, [neighbors] returns the list [top ++ right :: bottom ++
    [left]] (top and bottom being the entries of the rows above and below,
    when present); the right and the left entry are at the row and level
    of the tile; the right entry of a tile in column [N - 1] is in column
    0, and the left entry of a tile in column 0 is in column [N - 1];
    away from the seam they are in the columns [x + 1] and [x - 1]. *)
Theorem C6_neighbors_wrap_horizontally
        (g : Geometry.t) (t : Tile.t) (level : Level.t) (N : Z) :
  coherent g ->
  EquirectTile._level g t = Some level ->
  Level.numHorizontalTiles level = N -> 0 < N ->
  (0 <= Tile.y t)%Q ->
  (Tile.y t <= inject_Z (Level.numVerticalTiles level - 1))%Q ->
  exists res g' top r bottom l,
    EquirectTile.neighbors g t = Js.Return (res, g') /\
    res = top ++ r :: bottom ++ [l] /\
    Forall (fun u => (Tile.y u == Tile.y t + 1)%Q) top /\
    Forall (fun u => (Tile.y u == Tile.y t - 1)%Q) bottom /\
    ((Tile.y r == Tile.y t)%Q /\ Tile.z r = Tile.z t) /\
    ((Tile.y l == Tile.y t)%Q /\ Tile.z l = Tile.z t) /\
    ((Tile.x t == inject_Z (N - 1))%Q -> (Tile.x r == 0)%Q) /\
    ((Tile.x t == 0)%Q -> (Tile.x l == inject_Z (N - 1))%Q) /\
    ((0 <= Tile.x t + 1)%Q -> (Tile.x t + 1 <= inject_Z (N - 1))%Q ->
     (Tile.x r == Tile.x t + 1)%Q) /\
    ((0 <= Tile.x t - 1)%Q -> (Tile.x t - 1 <= inject_Z (N - 1))%Q ->
     (Tile.x l == Tile.x t - 1)%Q).
Proof.
  intros Hcoh Hlevel HN Hpos Hy0 Hy1.
  destruct (neighbors_layout g t level Hcoh Hlevel Hy0 Hy1)
    as (res & g' & top & r & bottom & l & Hret & _ & Hlay).
  rewrite HN in Hlay.
  exists res, g', top, r, bottom, l.
  pose proof (layout_top_rows _ _ _ _ _ _ _ _ Hlay) as Htop.
  pose proof (layout_bottom_rows _ _ _ _ _ _ _ _ Hlay) as Hbot.
  destruct Hlay as [Hlist _ (Hrx & Hry & Hrz) _ (Hlx & Hly & Hlz)].
  split; [exact Hret|]. split; [exact Hlist|].
  split; [exact (Forall_weaken _ _ _ (fun u H => proj1 H) Htop)|].
  split; [exact (Forall_weaken _ _ _ (fun u H => proj1 H) Hbot)|].
  split; [tauto|]. split; [tauto|]. repeat split.
  - intro Hx. rewrite Hrx. apply wrap_column_past_last; [lia|]. now rewrite Hx.
  - intro Hx. rewrite Hlx. apply wrap_column_before_first; [lia|].
    rewrite Hx. reflexivity.
  - intros H0 H1. rewrite Hrx. now apply wrap_column_inside.
  - intros H0 H1. rewrite Hlx. now apply wrap_column_inside.
Qed.

(** C7.  For a tile in column [a] and row [b] of its level, [neighbors]
    returns exactly the candidates whose row lies inside
    [0, tileRows - 1], in the order of the offsets: the tile above,
    [(a, b + 1)], unless [b] is the last row; the tile to the right; the
    tile below, [(a, b - 1)], unless [b] is row 0; the tile to the left.
    Hence the list has 2 to 4 entries, all at the level of the tile and
    with a row inside the level; for a tile in row 0 no entry is in row
    [b - 1], for a tile in row [tileRows - 1] no entry is in row [b + 1],
    and in both cases the list has at most 3 entries. *)
Theorem C7_neighbors_omit_rows_outside
        (g : Geometry.t) (t : Tile.t) (level : Level.t) (a b : Z) :
  coherent g ->
  EquirectTile._level g t = Some level ->
  (Tile.x t == inject_Z a)%Q -> 0 <= a <= Level.numHorizontalTiles level - 1 ->
  (Tile.y t == inject_Z b)%Q -> 0 <= b <= Level.numVerticalTiles level - 1 ->
  exists res g',
    EquirectTile.neighbors g t = Js.Return (res, g') /\
    Forall2 (fun u e => Tile.equals u e = true) res
      ((if b + 1 <=? Level.numVerticalTiles level - 1
        then [tile a (b + 1) (Tile.z t)] else []) ++
       [tile (if a + 1 <=? Level.numHorizontalTiles level - 1 then a + 1 else 0)
             b (Tile.z t)] ++
       (if 0 <=? b - 1 then [tile a (b - 1) (Tile.z t)] else []) ++
       [tile (if 0 <=? a - 1 then a - 1 else Level.numHorizontalTiles level - 1)
             b (Tile.z t)]) /\
    (2 <= List.length res <= 4)%nat /\
    Forall (fun u => Tile.z u = Tile.z t /\
                     (0 <= Tile.y u)%Q /\
                     (Tile.y u <= inject_Z (Level.numVerticalTiles level - 1))%Q)
           res /\
    (b = 0 ->
     Forall (fun u => ~ (Tile.y u == Tile.y t - 1)%Q) res /\
     (List.length res <= 3)%nat) /\
    (b = Level.numVerticalTiles level - 1 ->
     Forall (fun u => ~ (Tile.y u == Tile.y t + 1)%Q) res /\
     (List.length res <= 3)%nat).
Proof.
  intros Hcoh Hlevel Hx Ha Hy Hb.
  assert (Hy0 : (0 <= Tile.y t)%Q)
    by (rewrite Hy; change 0%Q with (inject_Z 0); rewrite <- Zle_Qle; lia).
  assert (Hy1 : (Tile.y t <= inject_Z (Level.numVerticalTiles level - 1))%Q)
    by (rewrite Hy, <- Zle_Qle; lia).
  destruct (neighbors_returns g t level Hcoh Hlevel)
    as (res & g' & k & Hret & Hsame & Hres & _ & _).
  exists res, g'. split; [exact Hret|]. split.
  { subst res. destruct Hsame as (Hkx & Hky & Hkz). rewrite <- Hkz.
    apply compute_neighbors_integer; try assumption.
    - now rewrite Hkx.
    - now rewrite Hky. }
  destruct (compute_neighbors_layout level k t Hsame Hy0 Hy1)
    as (top & r & bottom & l & Hlay).
  rewrite <- Hres in Hlay. clear Hres Hret.
  destruct Hlay as [-> Htop (_ & Hry & Hrz) Hbot (_ & Hly & Hlz)].
  set (numY := Level.numVerticalTiles level - 1) in *.
  assert (Hrow : Forall (fun u => Tile.z u = Tile.z t /\ (0 <= Tile.y u)%Q /\
                                  (Tile.y u <= inject_Z numY)%Q)
                        (top ++ r :: bottom ++ [l])).
  { apply Forall_app. split; [|constructor; [|apply Forall_app; split]].
    - destruct Htop as [[Hle (u & -> & Hu & Hz)]|[_ ->]]; repeat constructor;
        try assumption; Lqa.lra.
    - repeat split; try assumption; Lqa.lra.
    - destruct Hbot as [[Hge (u & -> & Hu & Hz)]|[_ ->]]; repeat constructor;
        try assumption; Lqa.lra.
    - repeat constructor; try assumption; Lqa.lra. }
  assert (Hlen : List.length (top ++ r :: bottom ++ [l]) =
                 (List.length top + List.length bottom + 2)%nat).
  { rewrite length_app. cbn [List.length]. rewrite length_app. cbn [List.length]. lia. }
  assert (Ht1 : (List.length top <= 1)%nat)
    by (destruct Htop as [[_ (u & -> & _)]|[_ ->]]; simpl; lia).
  assert (Hb1 : (List.length bottom <= 1)%nat)
    by (destruct Hbot as [[_ (u & -> & _)]|[_ ->]]; simpl; lia).
  rewrite !Hlen.
  split; [lia|]. split; [exact Hrow|]. split.
  - intro Hzero. assert (Hyz : (Tile.y t == 0)%Q) by (rewrite Hy, Hzero; reflexivity).
    split.
    + eapply Forall_weaken; [|exact Hrow]. intros u (_ & Hu0 & _) Hu. Lqa.lra.
    + destruct Hbot as [[Hge _]|[_ ->]]; [Lqa.lra|]. simpl. lia.
  - intro Hlast.
    assert (Hyl : (Tile.y t == inject_Z numY)%Q) by (rewrite Hy, Hlast; reflexivity).
    split.
    + eapply Forall_weaken; [|exact Hrow]. intros u (_ & _ & Hu1) Hu. Lqa.lra.
    + destruct Htop as [[Hle _]|[_ ->]]; [Lqa.lra|]. simpl. lia.
Qed.

Lemma geometry_of_coherent (ps : list LevelProperties) : coherent (geometry_of ps).
Proof. intros k v []. Qed.

Lemma C6_neighbors_wrap_horizontally_witness :
  exists res g' top r bottom l,
    EquirectTile.neighbors (geometry_of levels_three_wide) (tile 2 0 0)
    = Js.Return (res, g') /\
    res = top ++ r :: bottom ++ [l] /\
    Forall (fun u => (Tile.y u == Tile.y (tile 2 0 0) + 1)%Q) top /\
    Forall (fun u => (Tile.y u == Tile.y (tile 2 0 0) - 1)%Q) bottom /\
    ((Tile.y r == Tile.y (tile 2 0 0))%Q /\ Tile.z r = Tile.z (tile 2 0 0)) /\
    ((Tile.y l == Tile.y (tile 2 0 0))%Q /\ Tile.z l = Tile.z (tile 2 0 0)) /\
    ((Tile.x (tile 2 0 0) == inject_Z (3 - 1))%Q -> (Tile.x r == 0)%Q) /\
    ((Tile.x (tile 2 0 0) == 0)%Q -> (Tile.x l == inject_Z (3 - 1))%Q) /\
    ((0 <= Tile.x (tile 2 0 0) + 1)%Q ->
     (Tile.x (tile 2 0 0) + 1 <= inject_Z (3 - 1))%Q ->
     (Tile.x r == Tile.x (tile 2 0 0) + 1)%Q) /\
    ((0 <= Tile.x (tile 2 0 0) - 1)%Q ->
     (Tile.x (tile 2 0 0) - 1 <= inject_Z (3 - 1))%Q ->
     (Tile.x l == Tile.x (tile 2 0 0) - 1)%Q).
Proof.
  apply (C6_neighbors_wrap_horizontally
           (geometry_of levels_three_wide) (tile 2 0 0)
           (Level.create 0 (props 1536 512 512 512)) 3).
  - apply geometry_of_coherent.
  - reflexivity.
  - reflexivity.
  - lia.
  - vm_compute. discriminate.
  - vm_compute. discriminate.
Defined.

(** The scenario of the spec: a level 3 columns wide; the right neighbour
    of (2,0,0) is (0,0,0) and the left neighbour of (0,0,0) is (2,0,0). *)
Example neighbors_three_wide_right :
  match EquirectTile.neighbors (geometry_of levels_three_wide) (tile 2 0 0) with
  | Js.Return ([r; l], _) =>
      Tile.equals r (tile 0 0 0) = true /\ Tile.equals l (tile 1 0 0) = true
  | _ => False
  end.
Proof. vm_compute. split; reflexivity. Qed.

Example neighbors_three_wide_left :
  match EquirectTile.neighbors (geometry_of levels_three_wide) (tile 0 0 0) with
  | Js.Return ([r; l], _) =>
      Tile.equals r (tile 1 0 0) = true /\ Tile.equals l (tile 2 0 0) = true
  | _ => False
  end.
Proof. vm_compute. split; reflexivity. Qed.

Lemma C7_neighbors_omit_rows_outside_witness :
  exists res g',
    EquirectTile.neighbors (geometry_of levels_constant_tiles) (tile 3 0 2)
    = Js.Return (res, g') /\
    Forall2 (fun u e => Tile.equals u e = true) res
      ((if 0 + 1 <=? Level.numVerticalTiles
                       (Level.create 2 (props 2048 2048 512 512)) - 1
        then [tile 3 (0 + 1) (Tile.z (tile 3 0 2))] else []) ++
       [tile (if 3 + 1 <=? Level.numHorizontalTiles
                             (Level.create 2 (props 2048 2048 512 512)) - 1
              then 3 + 1 else 0)
             0 (Tile.z (tile 3 0 2))] ++
       (if 0 <=? 0 - 1 then [tile 3 (0 - 1) (Tile.z (tile 3 0 2))] else []) ++
       [tile (if 0 <=? 3 - 1 then 3 - 1
              else Level.numHorizontalTiles
                     (Level.create 2 (props 2048 2048 512 512)) - 1)
             0 (Tile.z (tile 3 0 2))]) /\
    (2 <= List.length res <= 4)%nat /\
    Forall (fun u => Tile.z u = Tile.z (tile 3 0 2) /\
                     (0 <= Tile.y u)%Q /\
                     (Tile.y u <=
                      inject_Z (Level.numVerticalTiles
                                  (Level.create 2 (props 2048 2048 512 512)) - 1))%Q)
           res /\
    (0 = 0 ->
     Forall (fun u => ~ (Tile.y u == Tile.y (tile 3 0 2) - 1)%Q) res /\
     (List.length res <= 3)%nat) /\
    (0 = Level.numVerticalTiles (Level.create 2 (props 2048 2048 512 512)) - 1 ->
     Forall (fun u => ~ (Tile.y u == Tile.y (tile 3 0 2) + 1)%Q) res /\
     (List.length res <= 3)%nat).
Proof.
  apply (C7_neighbors_omit_rows_outside
           (geometry_of levels_constant_tiles) (tile 3 0 2)
           (Level.create 2 (props 2048 2048 512 512)) 3 0).
  - apply geometry_of_coherent.
  - reflexivity.
  - reflexivity.
  - vm_compute. split; discriminate.
  - reflexivity.
  - vm_compute. split; discriminate.
Defined.

(** A level of 4 columns and 4 rows: the tile in the last column of row 0
    has the tile above, the tile in column 0 and the tile to the left; the
    tile in the middle has all four. *)
Example neighbors_corner :
  match EquirectTile.neighbors (geometry_of levels_constant_tiles) (tile 3 0 2) with
  | Js.Return (res, _) =>
      map (fun u => (Qfloor (Tile.x u), Qfloor (Tile.y u), Tile.z u)) res
      = [(3, 1, 2); (0, 0, 2); (2, 0, 2)]
  | _ => False
  end.
Proof. vm_compute. reflexivity. Qed.

Example neighbors_interior :
  match EquirectTile.neighbors (geometry_of levels_constant_tiles) (tile 1 2 2) with
  | Js.Return (res, _) =>
      map (fun u => (Qfloor (Tile.x u), Qfloor (Tile.y u), Tile.z u)) res
      = [(1, 3, 2); (2, 2, 2); (1, 1, 2); (0, 2, 2)]
  | _ => False
  end.
Proof. vm_compute. reflexivity. Qed.

(** A level of 1 column and 4 rows: the tile in row 0 has the entries
    top, right, left; the tile in row 3 has right, bottom, left. *)
Example neighbors_first_row :
  match EquirectTile.neighbors (geometry_of levels_one_column) (tile 0 0 0) with
  | Js.Return (res, _) =>
      map (fun u => (Qfloor (Tile.x u), Qfloor (Tile.y u), Tile.z u)) res
      = [(0, 1, 0); (0, 0, 0); (0, 0, 0)]
  | _ => False
  end.
Proof. vm_compute. reflexivity. Qed.

Example neighbors_last_row :
  match EquirectTile.neighbors (geometry_of levels_one_column) (tile 0 3 0) with
  | Js.Return (res, _) =>
      map (fun u => (Qfloor (Tile.x u), Qfloor (Tile.y u), Tile.z u)) res
      = [(0, 3, 0); (0, 2, 0); (0, 3, 0)]
  | _ => False
  end.
Proof. vm_compute. reflexivity. Qed.

Lemma filter_none {A : Type} (f : A -> bool) (l : list A) :
  Forall (fun a => f a = false) l -> filter f l = [].
Proof.
  induction 1 as [|a l Ha _ IH]; simpl; [reflexivity|]. now rewrite Ha.
Qed.

(** C10.  In a level with exactly one tile column, for the tile in column
    0 whose row lies inside the level, the right entry and the left entry
    of the neighbour list are both the tile itself, and these are the only
    two entries equal to it. *)
Theorem C10_single_column_lists_itself_twice
        (g : Geometry.t) (t : Tile.t) (level : Level.t) :
  coherent g ->
  EquirectTile._level g t = Some level ->
  Level.numHorizontalTiles level = 1 ->
  (Tile.x t == 0)%Q ->
  (0 <= Tile.y t)%Q ->
  (Tile.y t <= inject_Z (Level.numVerticalTiles level - 1))%Q ->
  exists res g' top r bottom l,
    EquirectTile.neighbors g t = Js.Return (res, g') /\
    res = top ++ r :: bottom ++ [l] /\
    Tile.equals r t = true /\
    Tile.equals l t = true /\
    List.length (filter (fun u => Tile.equals u t) res) = 2%nat.
Proof.
  intros Hcoh Hlevel HN Hx Hy0 Hy1.
  destruct (neighbors_layout g t level Hcoh Hlevel Hy0 Hy1)
    as (res & g' & top & r & bottom & l & Hret & _ & Hlay).
  rewrite HN in Hlay. change (1 - 1) with 0 in Hlay.
  exists res, g', top, r, bottom, l.
  pose proof (layout_top_rows _ _ _ _ _ _ _ _ Hlay) as Htop.
  pose proof (layout_bottom_rows _ _ _ _ _ _ _ _ Hlay) as Hbot.
  destruct Hlay as [Hlist _ (Hrx & Hry & Hrz) _ (Hlx & Hly & Hlz)].
  assert (Er : Tile.equals r t = true).
  { apply equals_same_address. repeat split; try assumption.
    apply Qeq_trans with 0%Q; [|symmetry; exact Hx].
    rewrite Hrx. apply (wrap_column_past_last 0); [lia|].
    rewrite Hx. reflexivity. }
  assert (El : Tile.equals l t = true).
  { apply equals_same_address. repeat split; try assumption.
    apply Qeq_trans with 0%Q; [|symmetry; exact Hx].
    rewrite Hlx. apply (wrap_column_before_first 0); [lia|].
    rewrite Hx. reflexivity. }
  split; [exact Hret|]. split; [exact Hlist|]. split; [exact Er|].
  split; [exact El|].
  assert (Ftop : filter (fun u => Tile.equals u t) top = []).
  { apply filter_none. eapply Forall_weaken; [|exact Htop].
    intros u [Hu _]. destruct (Tile.equals u t) eqn:E; [|reflexivity].
    apply equals_same_address in E. destruct E as (_ & Ey & _). Lqa.lra. }
  assert (Fbot : filter (fun u => Tile.equals u t) bottom = []).
  { apply filter_none. eapply Forall_weaken; [|exact Hbot].
    intros u [Hu _]. destruct (Tile.equals u t) eqn:E; [|reflexivity].
    apply equals_same_address in E. destruct E as (_ & Ey & _). Lqa.lra. }
  rewrite Hlist, filter_app, Ftop. cbn [filter app]. rewrite Er.
  rewrite filter_app, Fbot. cbn [filter app]. rewrite El. reflexivity.
Qed.

Lemma C10_single_column_lists_itself_twice_witness :
  exists res g' top r bottom l,
    EquirectTile.neighbors (geometry_of levels_one_column) (tile 0 1 0)
    = Js.Return (res, g') /\
    res = top ++ r :: bottom ++ [l] /\
    Tile.equals r (tile 0 1 0) = true /\
    Tile.equals l (tile 0 1 0) = true /\
    List.length (filter (fun u => Tile.equals u (tile 0 1 0)) res) = 2%nat.
Proof.
  apply (C10_single_column_lists_itself_twice
           (geometry_of levels_one_column) (tile 0 1 0)
           (Level.create 0 (props 512 1024 512 256))).
  - apply geometry_of_coherent.
  - reflexivity.
  - reflexivity.
  - reflexivity.
  - vm_compute. discriminate.
  - vm_compute. discriminate.
Defined.

(** *** The closest tile *)

Lemma clamp_clamp_between (v lo hi : Z) :
  lo <= hi -> Js.clamp v lo hi = clamp_between v lo hi.
Proof.
  intro H. unfold Js.clamp, clamp_between.
  destruct (v <? lo) eqn:E1; [apply Z.ltb_lt in E1|apply Z.ltb_ge in E1];
    destruct (hi <? v) eqn:E2;
    [apply Z.ltb_lt in E2|apply Z.ltb_ge in E2
     |apply Z.ltb_lt in E2|apply Z.ltb_ge in E2]; lia.
Qed.

Lemma makeLevelList_from_ref (ps : list LevelProperties) :
  forall r i level,
    nth_error (EquirectTileGeometry.makeLevelList_from r ps) i = Some level ->
    Level.ref level = (r + i)%nat.
Proof.
  induction ps as [|p ps IH]; intros r i level H.
  - destruct i; discriminate.
  - destruct i as [|i]; simpl in H.
    + injection H as <-. simpl. lia.
    + apply IH in H. lia.
Qed.

(** In a constructed level list every level object is found at its own
    position. *)
Lemma indexOf_makeLevelList_from (ps : list LevelProperties) :
  forall r j i level,
    nth_error (EquirectTileGeometry.makeLevelList_from r ps) i = Some level ->
    indexOf_from j (EquirectTileGeometry.makeLevelList_from r ps) level
    = j + Z.of_nat i.
Proof.
  induction ps as [|p ps IH]; intros r j i level H.
  - destruct i; discriminate.
  - pose proof (makeLevelList_from_ref _ _ _ _ H) as Href.
    destruct i as [|i]; simpl in H |- *.
    + injection H as <-. simpl. rewrite Nat.eqb_refl. lia.
    + rewrite Href. destruct (Nat.eqb_spec r (r + S i)) as [E|_]; [lia|].
      rewrite (IH (S r) (j + 1) i level H). lia.
Qed.

Lemma new_levelList (ps : list LevelProperties) (g : Geometry.t) :
  EquirectTileGeometry.new (EquirectTileGeometry.Array ps) = Js.Return g ->
  levelList g = EquirectTileGeometry.makeLevelList ps.
Proof.
  unfold EquirectTileGeometry.new.
  destruct (EquirectTileGeometry.makeSelectableLevelList
              (EquirectTileGeometry.makeLevelList ps)); simpl; [discriminate|].
  now intros [= <-].
Qed.

(** [Math.floor] of a finite double is the floor of its value. *)
Lemma floor_of_value (f : float) (q : Q) :
  Double.represents f q -> Double.floor f = Double.Int (Qfloor q).
Proof.
  intros (q' & Hv & Hq). unfold Double.floor. rewrite Hv.
  unfold Double.value in Hv. rewrite <- Hq.
  destruct (Prim2SF f); try discriminate; reflexivity.
Qed.

(** C8.  For a geometry built by the constructor, in any state it has
    reached, a level at position [i] of its level list whose dimensions
    are positive integers below 2^53, and a view for which the doubles
    [(yaw / (2 * Math.PI) + 0.5) * levelWidth / tileWidth] and
    [(-pitch / Math.PI + 0.5) * levelHeight / tileHeight] are finite with
    the values [vx] and [vy], [_closestTile] returns the tile at level [i]
    whose column is [floor(vx) mod tileColumns] and whose row is
    [floor(vy)] clamped to [0 .. tileRows - 1]; both lie inside the
    level.  Every [+], [*] and [/] is the one of IEEE doubles. *)
Theorem C8_closestTile_formula
        (ps : list LevelProperties) (g0 g : Geometry.t) (view : Double.view)
        (i : nat) (level : Level.t) (vx vy : Q) :
  EquirectTileGeometry.new (EquirectTileGeometry.Array ps) = Js.Return g0 ->
  reachable g0 g ->
  nth_error (levelList g) i = Some level ->
  Level.positive level -> held_exactly level ->
  Double.represents
    ((Double.yaw view / (2 * Double.PI) + 0.5)
     * Double.of_Z (Level.width level) / Double.of_Z (Level.tileWidth level))%float
    vx ->
  Double.represents
    ((- Double.pitch view / Double.PI + 0.5)
     * Double.of_Z (Level.height level) / Double.of_Z (Level.tileHeight level))%float
    vy ->
  let column := Qfloor vx mod Level.numHorizontalTiles level in
  let row := clamp_between (Qfloor vy) 0 (Level.numVerticalTiles level - 1) in
  Double._closestTile g view level
  = Double.mk (Double.of_Z column) (Double.of_Z row) (Z.of_nat i) /\
  0 <= column < Level.numHorizontalTiles level /\
  0 <= row <= Level.numVerticalTiles level - 1.
Proof.
  intros Hnew Hreach Hnth Hpos _ Hx Hy column row.
  pose proof (numHorizontalTiles_positive level Hpos) as HnX.
  pose proof (numVerticalTiles_positive level Hpos) as HnY.
  destruct (reachable_coherent g0 g (new_coherent _ _ Hnew) Hreach) as [_ Hlist].
  rewrite (new_levelList ps g0 Hnew) in Hlist.
  split; [|split].
  - unfold Double._closestTile.
    rewrite (floor_of_value _ _ Hx), (floor_of_value _ _ Hy).
    rewrite Hlist in *.
    unfold indexOf, EquirectTileGeometry.makeLevelList in *.
    rewrite (indexOf_makeLevelList_from ps 0 0 i level Hnth).
    cbn [Double.modulo Double.clamp Double.to_float].
    rewrite clamp_clamp_between by lia. reflexivity.
  - subst column. apply Z.mod_pos_bound. exact HnX.
  - subst row. unfold clamp_between.
    destruct (_ <? 0) eqn:E1; [lia|apply Z.ltb_ge in E1].
    destruct (_ <? _) eqn:E2; [lia|apply Z.ltb_ge in E2]. lia.
Qed.

Lemma C8_closestTile_formula_witness :
  let level := Level.create 0 (props 2048 1024 512 512) in
  let column := Qfloor 2 mod Level.numHorizontalTiles level in
  let row := clamp_between (Qfloor 1) 0 (Level.numVerticalTiles level - 1) in
  Double._closestTile (geometry_of levels_four_columns) view_left_of_centre level
  = Double.mk (Double.of_Z column) (Double.of_Z row) (Z.of_nat 0) /\
  0 <= column < Level.numHorizontalTiles level /\
  0 <= row <= Level.numVerticalTiles level - 1.
Proof.
  apply (C8_closestTile_formula levels_four_columns
           (geometry_of levels_four_columns) (geometry_of levels_four_columns)
           view_left_of_centre 0 (Level.create 0 (props 2048 1024 512 512))).
  - reflexivity.
  - apply reachable_start.
  - reflexivity.
  - apply positiveb_sound. reflexivity.
  - unfold held_exactly. cbn. lia.
  - eexists. split; [vm_compute; reflexivity|]. vm_compute. reflexivity.
  - eexists. split; [vm_compute; reflexivity|]. vm_compute. reflexivity.
Defined.

(** A yaw of [-1e-17] on a level of 4 columns: [yaw / (2 * Math.PI) + 0.5]
    is the double 0.5, and the tile is in column 2. *)
Example closestTile_left_of_centre :
  Double._closestTile (geometry_of levels_four_columns) view_left_of_centre
                      (Level.create 0 (props 2048 1024 512 512))
  = Double.mk 2 1 0.
Proof. vm_compute. reflexivity. Qed.

(** Without rounding the same direction lies in column 1:
    [yaw / (2 pi) + 0.5] is below 0.5 by less than a double can tell. *)
Example closestTile_left_of_centre_exact :
  EquirectTileGeometry._closestTile
    (geometry_of levels_four_columns) view_left_of_centre_exact
    (Level.create 0 (props 2048 1024 512 512))
  = tile 1 1 0.
Proof.
  unfold EquirectTileGeometry._closestTile, tile, view_left_of_centre_exact.
  cbn [View.yaw View.pitch].
  change (Level.width (Level.create 0 (props 2048 1024 512 512))) with 2048.
  change (Level.height (Level.create 0 (props 2048 1024 512 512))) with 1024.
  change (Level.tileWidth (Level.create 0 (props 2048 1024 512 512))) with 512.
  change (Level.tileHeight (Level.create 0 (props 2048 1024 512 512))) with 512.
  assert (Hy : ((- 0 / PI + 0.5) * IZR 1024 / IZR 512 = IZR 1)%R) by Lra.lra.
  assert (Hfy : EquirectTileGeometry.floorR (IZR 1) = 1).
  { symmetry. apply Int_part_spec. split; Lra.lra. }
  rewrite Hy, Hfy.
  assert (Hfx : EquirectTileGeometry.floorR
                  ((- IZR 6490371073168535 / IZR (2 ^ 109) / (2 * PI) + 0.5)
                   * IZR 2048 / IZR 512)%R = 1).
  { symmetry. apply Int_part_spec.
    pose proof PI2_1 as Hpi. pose proof PI_RGT_0 as Hpos.
    set (u := (/ (2 * PI))%R).
    assert (Hu0 : (0 < u)%R) by (apply Rinv_0_lt_compat; Lra.lra).
    assert (Hu1 : (u < 1)%R).
    { unfold u. rewrite <- Rinv_1. apply Rinv_lt_contravar; Lra.lra. }
    set (a := (IZR 6490371073168535 / IZR (2 ^ 109))%R).
    assert (Ha0 : (0 < a)%R).
    { unfold a. apply Rdiv_lt_0_compat; apply IZR_lt; reflexivity. }
    assert (Ha1 : (a < 1 / 8)%R).
    { unfold a. apply Rmult_lt_reg_r with (IZR (2 ^ 109)); [apply IZR_lt; reflexivity|].
      unfold Rdiv. rewrite Rmult_assoc, Rinv_l, Rmult_1_r
        by (apply not_0_IZR; discriminate).
      replace (1 * / 8 * IZR (2 ^ 109))%R with (IZR (2 ^ 106)).
      - apply IZR_lt. reflexivity.
      - change (2 ^ 109) with (8 * 2 ^ 106). rewrite mult_IZR. change (IZR 8) with 8%R.
        Lra.lra. }
    replace ((- IZR 6490371073168535 / IZR (2 ^ 109) / (2 * PI) + 0.5)
             * IZR 2048 / IZR 512)%R with (2 - 4 * (a * u))%R
      by (unfold a, u; Lra.lra).
    assert (Hau : (0 < a * u < 1 / 8)%R).
    { split; [apply Rmult_lt_0_compat; assumption|]. nra. }
    split; simpl; Lra.lra. }
  rewrite Hfx. reflexivity.
Qed.

(** A yaw of [Math.PI] on a level of 16 columns:
    [Math.PI / (2 * Math.PI) + 0.5] is the double 1, the floor is 16 and
    the tile is in column 0. *)
Example closestTile_backwards :
  Double._closestTile (geometry_of levels_sixteen_columns) view_backwards
                      (Level.create 0 (props 8192 4096 512 512))
  = Double.mk 0 4 0.
Proof. vm_compute. reflexivity. Qed.

(** A yaw of 1 and a pitch of 0.3 on the same level: the doubles are
    10.546... and 3.236..., the tile is (10, 3). *)
Example closestTile_up_and_right :
  Double._closestTile (geometry_of levels_sixteen_columns) view_up_and_right
                      (Level.create 0 (props 8192 4096 512 512))
  = Double.mk 10 3 0.
Proof. vm_compute. reflexivity. Qed.

(** A yaw that is NaN gives a tile whose column is NaN. *)
Example closestTile_of_NaN :
  PrimFloat.is_nan
    (Double.x (Double._closestTile (geometry_of levels_four_columns)
                 {| Double.yaw := nan; Double.pitch := 0%float |}
                 (Level.create 0 (props 2048 1024 512 512)))) = true.
Proof. vm_compute. reflexivity. Qed.

(** Looking straight ahead in a level of 4 x 4 tiles: the image point is
    the centre, which lies in column 2 and row 2. *)
Example closestTile_ahead :
  EquirectTileGeometry._closestTile
    (geometry_of [props 2048 2048 512 512]) view_ahead
    (Level.create 0 (props 2048 2048 512 512))
  = tile 2 2 0.
Proof.
  unfold EquirectTileGeometry._closestTile, tile, view_ahead. simpl View.yaw.
  simpl View.pitch.
  assert (Hx : ((0 / (2 * PI) + 0.5) * IZR 2048 / IZR 512 = IZR 2)%R)
    by Lra.lra.
  assert (Hy : ((- 0 / PI + 0.5) * IZR 2048 / IZR 512 = IZR 2)%R)
    by Lra.lra.
  assert (Hf : EquirectTileGeometry.floorR (IZR 2) = 2).
  { symmetry. apply Int_part_spec. split; Lra.lra. }
  change (Level.width (Level.create 0 (props 2048 2048 512 512))) with 2048.
  change (Level.height (Level.create 0 (props 2048 2048 512 512))) with 2048.
  change (Level.tileWidth (Level.create 0 (props 2048 2048 512 512))) with 512.
  change (Level.tileHeight (Level.create 0 (props 2048 2048 512 512))) with 512.
  rewrite Hx, Hy, Hf. reflexivity.
Qed.

(** *** Sphere projection *)

Lemma makeVertex_ahead : EquirectTile.makeVertex 0 0 = (0, 0, 1)%R.
Proof.
  unfold EquirectTile.makeVertex. rewrite sin_0, cos_0.
  repeat f_equal; Lra.lra.
Qed.

(** C9.  For a tile of an existing level, [vertices] returns four vectors:
    with [minX], [minY], [scaleX], [scaleY] the footprint of the tile, they
    are the images of the corners with yaw [-minX * 2 pi] or
    [-(minX + scaleX) * 2 pi] and pitch [-(minY - 0.5) * pi] or
    [-(minY + scaleY - 0.5) * pi] under
    [(yaw, pitch) |-> (sin yaw * cos pitch, - sin pitch, cos yaw * cos pitch)],
    and the corner with yaw 0 and pitch 0 is mapped to (0, 0, 1).  Angles
    are real numbers and the arithmetic is exact. *)
Theorem C9_vertices_projection (g : Geometry.t) (t : Tile.t) (level : Level.t) :
  EquirectTile._level g t = Some level ->
  exists minX scaleX minY scaleY : Q,
    EquirectTile.minX g t = Js.Return minX /\
    EquirectTile.scaleX g t = Js.Return scaleX /\
    EquirectTile.minY g t = Js.Return minY /\
    EquirectTile.scaleY g t = Js.Return scaleY /\
    let project (yaw pitch : R) : EquirectTile.vec3 :=
      (sin yaw * cos pitch, - sin pitch, cos yaw * cos pitch)%R in
    let yaw_near := (- Q2R minX * (2 * PI))%R in
    let yaw_far := (- (Q2R minX + Q2R scaleX) * (2 * PI))%R in
    let pitch_near := (- (Q2R minY - 0.5) * PI)%R in
    let pitch_far := (- (Q2R minY + Q2R scaleY - 0.5) * PI)%R in
    EquirectTile.vertices g t =
    Js.Return [ project yaw_near pitch_far;
                project yaw_far pitch_far;
                project yaw_far pitch_near;
                project yaw_near pitch_near ] /\
    project 0%R 0%R = (0, 0, 1)%R.
Proof.
  intro Hlevel.
  unfold EquirectTile.vertices, EquirectTile.minX, EquirectTile.minY,
    EquirectTile.scaleX, EquirectTile.scaleY, EquirectTile.width,
    EquirectTile.height, EquirectTile.the_level.
  rewrite Hlevel. cbn [Js.bind].
  destruct (Qeq_bool (Tile.x t) _); destruct (Qeq_bool (Tile.y t) _);
    cbn [Js.bind];
    (do 4 eexists; do 4 (split; [reflexivity|]);
     split; [|apply makeVertex_ahead];
     unfold EquirectTile.makeVertex;
     match goal with
     | |- Js.Return [(sin ?a * cos ?b, _, _); (sin ?c * cos _, _, _);
                     (_, - sin ?d, _); _]%R =
          Js.Return [(sin ?a' * cos ?b', _, _); (sin ?c' * cos _, _, _);
                     (_, - sin ?d', _); _]%R =>
         replace c with c' by ring;
         replace a with a' by ring;
         replace b with b' by ring;
         replace d with d' by ring
     end; reflexivity).
Qed.

Lemma C9_vertices_projection_witness :
  exists minX scaleX minY scaleY : Q,
    EquirectTile.minX (geometry_of levels_two_rows) (tile 0 1 0) = Js.Return minX /\
    EquirectTile.scaleX (geometry_of levels_two_rows) (tile 0 1 0) = Js.Return scaleX /\
    EquirectTile.minY (geometry_of levels_two_rows) (tile 0 1 0) = Js.Return minY /\
    EquirectTile.scaleY (geometry_of levels_two_rows) (tile 0 1 0) = Js.Return scaleY /\
    let project (yaw pitch : R) : EquirectTile.vec3 :=
      (sin yaw * cos pitch, - sin pitch, cos yaw * cos pitch)%R in
    let yaw_near := (- Q2R minX * (2 * PI))%R in
    let yaw_far := (- (Q2R minX + Q2R scaleX) * (2 * PI))%R in
    let pitch_near := (- (Q2R minY - 0.5) * PI)%R in
    let pitch_far := (- (Q2R minY + Q2R scaleY - 0.5) * PI)%R in
    EquirectTile.vertices (geometry_of levels_two_rows) (tile 0 1 0) =
    Js.Return [ project yaw_near pitch_far;
                project yaw_far pitch_far;
                project yaw_far pitch_near;
                project yaw_near pitch_near ] /\
    project 0%R 0%R = (0, 0, 1)%R.
Proof.
  apply (C9_vertices_projection (geometry_of levels_two_rows) (tile 0 1 0)
           (Level.create 0 (props 512 512 512 256))).
  reflexivity.
Defined.

(** The footprint of the lower of two tiles stacked in one column starts
    at yaw 0 and pitch 0: its last vertex is the point straight ahead. *)
Example vertices_corner_ahead :
  exists v0 v1 v2,
    EquirectTile.vertices (geometry_of levels_two_rows) (tile 0 1 0)
    = Js.Return [v0; v1; v2; (0, 0, 1)%R].
Proof.
  unfold EquirectTile.vertices, EquirectTile.minX, EquirectTile.minY,
    EquirectTile.scaleX, EquirectTile.scaleY, EquirectTile.width,
    EquirectTile.height, EquirectTile.the_level.
  change (EquirectTile._level (geometry_of levels_two_rows) (tile 0 1 0))
    with (Some (Level.create 0 (props 512 512 512 256))).
  cbn [Js.bind].
  change (Qeq_bool (Tile.x (tile 0 1 0))
            (inject_Z (Level.numHorizontalTiles
                         (Level.create 0 (props 512 512 512 256)) - 1)))
    with true.
  change (Qeq_bool (Tile.y (tile 0 1 0))
            (inject_Z (Level.numVerticalTiles
                         (Level.create 0 (props 512 512 512 256)) - 1)))
    with true.
  cbn [Js.bind]. do 3 eexists. apply f_equal.
  do 3 (apply f_equal2; [reflexivity|]).
  apply f_equal2; [|reflexivity].
  rewrite <- makeVertex_ahead. unfold Q2R. simpl.
  apply f_equal2; Lra.lra.
Qed.

(** ** Further properties of the code *)

(** *** Validation *)

Lemma rem_is_not_zero_false (a b : Z) :
  0 < b -> Js.rem_is_not_zero a b = false <-> Js.rem a b = 0.
Proof.
  intro Hb. unfold Js.rem_is_not_zero.
  destruct (b =? 0) eqn:E; [apply Z.eqb_eq in E; lia|]. cbn [orb].
  rewrite negb_false_iff. apply Z.eqb_eq.
Qed.

(** For a parent of positive dimensions the validation returns
    [undefined] exactly when all four divisibility tests pass. *)
Lemma validate_None_iff (level parentLevel : Level.t) :
  Level.positive parentLevel ->
  Level._validateWithParentLevel level parentLevel = None <->
  divisible level parentLevel.
Proof.
  intros (Pw & Ph & Ptw & Pth).
  unfold Level._validateWithParentLevel, divisible.
  pose proof (rem_is_not_zero_false (Level.width level) _ Pw) as H1.
  pose proof (rem_is_not_zero_false (Level.height level) _ Ph) as H2.
  pose proof (rem_is_not_zero_false (Level.tileWidth level) _ Ptw) as H3.
  pose proof (rem_is_not_zero_false (Level.tileHeight level) _ Pth) as H4.
  destruct (Js.rem_is_not_zero (Level.width level) _);
    [split; [discriminate|intros (C & _); apply H1 in C; discriminate]|].
  destruct (Js.rem_is_not_zero (Level.height level) _);
    [split; [discriminate|intros (_ & C & _); apply H2 in C; discriminate]|].
  destruct (Js.rem_is_not_zero (Level.tileWidth level) _);
    [split; [discriminate|intros (_ & _ & C & _); apply H3 in C; discriminate]|].
  destruct (Js.rem_is_not_zero (Level.tileHeight level) _);
    [split; [discriminate|intros (_ & _ & _ & C); apply H4 in C; discriminate]|].
  split; [|reflexivity]. intros _.
  repeat split; [apply H1|apply H2|apply H3|apply H4]; reflexivity.
Qed.

(** With a parent of width 0 the width test is [0 % 0 !== 0] or
    [w % 0 !== 0], which holds of NaN: the Error is built. *)
Lemma validate_zero_width_parent (level parentLevel : Level.t) :
  Level.width parentLevel = 0 ->
  Level._validateWithParentLevel level parentLevel <> None.
Proof.
  intro H. unfold Level._validateWithParentLevel, Js.rem_is_not_zero.
  rewrite H. cbn [Z.eqb orb]. discriminate.
Qed.

(** X1.  For a level list of positive dimensions, the calls
    [levelList[i]._validateWithParentLevel(levelList[i - 1])] that the
    constructor makes all return [undefined] exactly when the level list
    satisfies the divisibility invariant: every level's width, height,
    tile width and tile height is a multiple of its predecessor's. *)
Theorem validation_results_characterise_invariant (levelList : list Level.t) :
  Forall Level.positive levelList ->
  (Forall (fun r => r = None) (EquirectTileGeometry.validation_results levelList)
   <-> hierarchy_invariant levelList).
Proof.
  induction levelList as [|p rest IH]; intro Hpos.
  - split; [|constructor]. intros _ i level parentLevel H. destruct i; discriminate.
  - destruct rest as [|l rest'].
    + split; [|constructor]. intros _ i level parentLevel H.
      destruct i; discriminate.
    + inversion Hpos as [|p0 r0 Pp Prest]; subst.
      specialize (IH Prest).
      cbn [EquirectTileGeometry.validation_results] in *. split.
      * intros H. inversion H as [|r rs Hr Hrs]; subst.
        apply (validate_None_iff _ _ Pp) in Hr. apply IH in Hrs.
        intros i level parentLevel Hl Hp. destruct i as [|i].
        -- cbn in Hl, Hp. injection Hl as <-. injection Hp as <-. exact Hr.
        -- apply (Hrs i level parentLevel); assumption.
      * intros H. constructor.
        -- apply (validate_None_iff _ _ Pp). apply (H 0%nat); reflexivity.
        -- apply IH. intros i level parentLevel Hl Hp.
           apply (H (S i) level parentLevel); assumption.
Qed.

Lemma validation_results_characterise_invariant_witness :
  Forall (fun r => r = None)
         (EquirectTileGeometry.validation_results
            (EquirectTileGeometry.makeLevelList levels_constant_tiles))
  <-> hierarchy_invariant (EquirectTileGeometry.makeLevelList levels_constant_tiles).
Proof.
  apply (validation_results_characterise_invariant
           (EquirectTileGeometry.makeLevelList levels_constant_tiles)).
  apply all_positive_sound. vm_compute. reflexivity.
Defined.

(** *** Parent and children: outcomes and bounds *)

Lemma at_index_None {A : Type} (l : list A) (i : Z) :
  i < 0 \/ Z.of_nat (List.length l) <= i -> at_index l i = None.
Proof.
  intros H. unfold at_index. destruct (i <? 0) eqn:E; [reflexivity|].
  apply Z.ltb_ge in E. apply nth_error_None. lia.
Qed.

(** X2.  The three outcomes of [parent]: [null] at level 0, a tile one
    level up for a level index from 1 on, and a [TypeError] for any other
    [z] that is no index of the level list. *)
Theorem parent_outcome (g : Geometry.t) (t : Tile.t) :
  (Tile.z t = 0 -> EquirectTile.parent g t = Js.Return None) /\
  (1 <= Tile.z t < Z.of_nat (List.length (levelList g)) ->
   exists p, EquirectTile.parent g t = Js.Return (Some p) /\
             Tile.z p = Tile.z t - 1) /\
  (Tile.z t <> 0 ->
   Tile.z t < 0 \/ Z.of_nat (List.length (levelList g)) <= Tile.z t ->
   EquirectTile.parent g t = Js.Throw Js.TypeError).
Proof.
  unfold EquirectTile.parent, EquirectTile.level_at. repeat split.
  - intros ->. reflexivity.
  - intros Hz.
    destruct (Tile.z t =? 0) eqn:E; [apply Z.eqb_eq in E; lia|].
    destruct (at_index_exists (levelList g) (Tile.z t)) as [l Hl]; [lia|].
    destruct (at_index_exists (levelList g) (Tile.z t - 1)) as [p Hp]; [lia|].
    rewrite Hl, Hp. cbn [Js.bind]. eexists. split; reflexivity.
  - intros Hn Hz.
    destruct (Tile.z t =? 0) eqn:E; [apply Z.eqb_eq in E; lia|].
    rewrite (at_index_None (levelList g) (Tile.z t) Hz). reflexivity.
Qed.

(** X3.  The three outcomes of [children]: [null] at the finest level, a
    list for a level index below it when the levels have positive
    dimensions (with a zero dimension the loop bound can be infinite),
    and a [TypeError] for any other [z] that is no index of the level
    list. *)
Theorem children_outcome (g : Geometry.t) (t : Tile.t)
        (result : option (list Tile.t)) :
  (Tile.z t = Z.of_nat (List.length (levelList g)) - 1 ->
   EquirectTile.children g t result = Js.Return None) /\
  (0 <= Tile.z t < Z.of_nat (List.length (levelList g)) - 1 ->
   Forall Level.positive (levelList g) ->
   exists cs, EquirectTile.children g t result = Js.Return (Some cs)) /\
  (Tile.z t <> Z.of_nat (List.length (levelList g)) - 1 ->
   Tile.z t < 0 \/ Z.of_nat (List.length (levelList g)) <= Tile.z t ->
   EquirectTile.children g t result = Js.Throw Js.TypeError).
Proof.
  unfold EquirectTile.children, EquirectTile.level_at. repeat split.
  - intros ->. rewrite Z.eqb_refl. reflexivity.
  - intros Hz _.
    destruct (Tile.z t =? _) eqn:E; [apply Z.eqb_eq in E; lia|].
    destruct (at_index_exists (levelList g) (Tile.z t)) as [l Hl]; [lia|].
    destruct (at_index_exists (levelList g) (Tile.z t + 1)) as [c Hc]; [lia|].
    rewrite Hl, Hc. cbn [Js.bind]. eexists. reflexivity.
  - intros Hn Hz.
    destruct (Tile.z t =? _) eqn:E; [apply Z.eqb_eq in E; lia|].
    rewrite (at_index_None (levelList g) (Tile.z t)) by lia. reflexivity.
Qed.

Lemma Qfloor_nonneg (q : Q) : (0 <= q)%Q -> 0 <= Qfloor q.
Proof.
  intro H. replace 0 with (Qfloor (inject_Z 0)) by apply Qfloor_Z.
  now apply Qfloor_resp_le.
Qed.

Lemma Qfloor_below (q : Q) (n : Z) : (q < inject_Z n)%Q -> Qfloor q < n.
Proof.
  intro H. pose proof (Qfloor_le q) as Hf.
  assert (Hlt : (inject_Z (Qfloor q) < inject_Z n)%Q)
    by (eapply Qle_lt_trans; eassumption).
  now rewrite <- Zlt_Qlt in Hlt.
Qed.

Lemma inject_Z_pred (n : Z) : (inject_Z (n - 1) == inject_Z n - 1)%Q.
Proof.
  unfold Z.sub. rewrite inject_Z_plus, inject_Z_opp. reflexivity.
Qed.

(** The coordinate that [parent] computes along one axis stays inside
    the coarser grid. *)
Lemma parent_coordinate_in_range (x : Q) (nc np : Z) :
  0 < nc -> 0 < np ->
  (0 <= x)%Q -> (x <= inject_Z (nc - 1))%Q ->
  0 <= Qfloor (x / (inject_Z nc / inject_Z np)) <= np - 1.
Proof.
  intros Hc Hp H0 H1.
  pose proof (inject_Z_pos nc Hc) as Qc. pose proof (inject_Z_pos np Hp) as Qp.
  pose proof (ratio_positive nc np Hc Hp) as Hr.
  rewrite inject_Z_pred in H1.
  split.
  - apply Qfloor_nonneg. apply Qle_shift_div_l; [exact Hr|]. Lqa.lra.
  - assert (Hlt : (x / (inject_Z nc / inject_Z np) < inject_Z np)%Q).
    { apply Qlt_shift_div_r; [exact Hr|].
      setoid_replace (inject_Z np * (inject_Z nc / inject_Z np))%Q
        with (inject_Z nc) by (field; Lqa.lra).
      Lqa.lra. }
    apply Qfloor_below in Hlt. lia.
Qed.



(** The number of turns of the loop [for (i = 0; i < bound; i++)]. *)
Lemma for_from_length (fuel : nat) :
  forall (i : Z) (bound : Q),
    Z.of_nat fuel = Qceiling bound - i ->
    List.length (Js.for_from fuel i bound) = fuel.
Proof.
  induction fuel as [|fuel IH]; intros i bound H; simpl; [reflexivity|].
  destruct (Qle_bool bound (inject_Z i)) eqn:E.
  - apply Qle_bool_iff in E. pose proof (Qceiling_lt bound) as Hc.
    assert (Hlt : (inject_Z (Qceiling bound - 1) < inject_Z i)%Q)
      by (eapply Qlt_le_trans; eassumption).
    rewrite <- Zlt_Qlt in Hlt. lia.
  - simpl. rewrite IH; [reflexivity|lia].
Qed.

Lemma for_indices_length (bound : Q) :
  List.length (Js.for_indices bound) = Z.to_nat (Qceiling bound).
Proof.
  unfold Js.for_indices.
  destruct (Z.le_gt_cases (Qceiling bound) 0) as [H|H].
  - replace (Z.to_nat (Qceiling bound)) with 0%nat by lia. reflexivity.
  - apply for_from_length. lia.
Qed.

Lemma flat_map_constant_length {A B : Type} (f : A -> list B) (n : nat)
      (l : list A) :
  (forall a, List.length (f a) = n) ->
  List.length (flat_map f l) = (List.length l * n)%nat.
Proof.
  intro H. induction l as [|a l IH]; simpl; [reflexivity|].
  now rewrite length_app, H, IH.
Qed.

(** X5.  In a geometry of positive levels, for a tile below the finest
    level, [children(result)] keeps the elements of [result] in front and
    appends the tiles it returns without an argument; these are
    [ceil(r_x) * ceil(r_y)] tiles, [r_x] and [r_y] being the ratios of
    the numbers of tile columns and rows of the two levels, all at the
    next level. *)
Theorem children_appends_grid (g : Geometry.t) (t : Tile.t)
        (result : list Tile.t) (level childLevel : Level.t) :
  Level.positive level -> Level.positive childLevel ->
  Tile.z t <> Z.of_nat (List.length (levelList g)) - 1 ->
  at_index (levelList g) (Tile.z t) = Some level ->
  at_index (levelList g) (Tile.z t + 1) = Some childLevel ->
  exists cs,
    EquirectTile.children g t None = Js.Return (Some cs) /\
    EquirectTile.children g t (Some result) = Js.Return (Some (result ++ cs)) /\
    List.length cs =
      (Z.to_nat (Qceiling (ratio_x childLevel level)) *
       Z.to_nat (Qceiling (ratio_y childLevel level)))%nat /\
    Forall (fun c => Tile.z c = Tile.z t + 1) cs.
Proof.
  intros _ _ Hz Hl Hc.
  unfold EquirectTile.children, EquirectTile.level_at.
  destruct (Tile.z t =? _) eqn:E; [apply Z.eqb_eq in E; contradiction|].
  rewrite Hl, Hc. cbn [Js.bind app].
  eexists. split; [reflexivity|]. split; [reflexivity|]. split.
  - rewrite (flat_map_constant_length _
               (Z.to_nat (Qceiling (ratio_y childLevel level)))).
    + now rewrite for_indices_length.
    + intro dx. rewrite length_map. apply for_indices_length.
  - apply Forall_forall. intros c Hin.
    apply in_flat_map in Hin. destruct Hin as (dx & _ & Hin).
    apply in_map_iff in Hin. destruct Hin as (dy & <- & _). reflexivity.
Qed.

Lemma children_appends_grid_witness :
  exists cs,
    EquirectTile.children (geometry_of levels_tripling) (tile 1 0 0) None
    = Js.Return (Some cs) /\
    EquirectTile.children (geometry_of levels_tripling) (tile 1 0 0)
                          (Some [tile 7 7 7])
    = Js.Return (Some ([tile 7 7 7] ++ cs)) /\
    List.length cs =
      (Z.to_nat (Qceiling (ratio_x (Level.create 1 (props 1536 1536 256 256))
                                   (Level.create 0 (props 512 512 256 256)))) *
       Z.to_nat (Qceiling (ratio_y (Level.create 1 (props 1536 1536 256 256))
                                   (Level.create 0 (props 512 512 256 256)))))%nat /\
    Forall (fun c => Tile.z c = Tile.z (tile 1 0 0) + 1) cs.
Proof.
  apply (children_appends_grid (geometry_of levels_tripling) (tile 1 0 0)
           [tile 7 7 7]
           (Level.create 0 (props 512 512 256 256))
           (Level.create 1 (props 1536 1536 256 256))).
  - apply positiveb_sound. vm_compute. reflexivity.
  - apply positiveb_sound. vm_compute. reflexivity.
  - simpl. lia.
  - reflexivity.
  - reflexivity.
Defined.

(** The coordinate of a child along one axis stays inside the finer
    grid. *)
Lemma child_coordinate_in_range (x : Q) (d nc np : Z) :
  0 < nc -> 0 < np ->
  (0 <= x)%Q -> (x <= inject_Z (np - 1))%Q ->
  0 <= d -> (inject_Z d < inject_Z nc / inject_Z np)%Q ->
  (0 <= inject_Z nc / inject_Z np * x + inject_Z d)%Q /\
  (inject_Z nc / inject_Z np * x + inject_Z d < inject_Z nc)%Q.
Proof.
  intros Hc Hp H0 H1 Hd Hdr.
  pose proof (inject_Z_pos nc Hc) as Qc. pose proof (inject_Z_pos np Hp) as Qp.
  pose proof (ratio_positive nc np Hc Hp) as Hr.
  assert (Hd0 : (0 <= inject_Z d)%Q) by (rewrite <- (Zle_Qle 0); lia).
  rewrite inject_Z_pred in H1.
  assert (Hnc : (inject_Z nc / inject_Z np * inject_Z np == inject_Z nc)%Q)
    by (field; Lqa.lra).
  set (r := (inject_Z nc / inject_Z np)%Q) in *.
  assert (Hmul : (r * x <= r * (inject_Z np - 1))%Q).
  { apply Qmult_le_l; [exact Hr|exact H1]. }
  split.
  - assert (0 <= r * x)%Q by (apply Qmult_le_0_compat; Lqa.lra). Lqa.lra.
  - Lqa.lra.
Qed.



(** One axis of the way back: with an integer ratio [k], the column [a]
    is the child number [a mod k] of the column [floor(a / k)]. *)
Lemma child_of_parent_axis (r x : Q) (k a : Z) :
  (0 < r)%Q -> (r == inject_Z k)%Q -> (x == inject_Z a)%Q -> 0 <= a ->
  0 <= a mod k /\ (inject_Z (a mod k) < r)%Q /\
  (r * Js.Math_floor (x / r) + inject_Z (a mod k) == x)%Q.
Proof.
  intros Hr Hk Hx Ha.
  assert (Hk0 : 0 < k).
  { rewrite Hk in Hr. change 0%Q with (inject_Z 0) in Hr.
    now rewrite <- Zlt_Qlt in Hr. }
  pose proof (Z.mod_pos_bound a k Hk0) as [Hm0 Hm1].
  split; [exact Hm0|]. split.
  - rewrite Hk. now rewrite <- Zlt_Qlt.
  - unfold Js.Math_floor.
    assert (Hf : Qfloor (x / r) = a / k).
    { rewrite (Qfloor_comp (x / r) (inject_Z a / inject_Z k)).
      - symmetry. apply Zdiv_Qdiv.
      - now rewrite Hx, Hk. }
    rewrite Hf, Hk, Hx, <- inject_Z_mult, <- inject_Z_plus.
    rewrite <- (Z.div_mod a k) by lia. reflexivity.
Qed.

(** X7.  In a geometry of positive levels, when the ratios of tile
    columns and of tile rows between a level and the level above are
    integers, every tile of that level with non-negative integer column
    and row is one of the children of its parent. *)
Theorem tile_is_child_of_its_parent (g : Geometry.t) (t : Tile.t)
        (level parentLevel : Level.t) (a b : Z) :
  Level.positive level -> Level.positive parentLevel ->
  Tile.z t <> 0 ->
  at_index (levelList g) (Tile.z t) = Some level ->
  at_index (levelList g) (Tile.z t - 1) = Some parentLevel ->
  integral (ratio_x level parentLevel) ->
  integral (ratio_y level parentLevel) ->
  (Tile.x t == inject_Z a)%Q -> 0 <= a ->
  (Tile.y t == inject_Z b)%Q -> 0 <= b ->
  exists p cs c,
    EquirectTile.parent g t = Js.Return (Some p) /\
    EquirectTile.children g p None = Js.Return (Some cs) /\
    In c cs /\ Tile.equals c t = true.
Proof.
  intros Pl Pp Hz Hl Hp [kx Hkx] [ky Hky] Hx Ha Hy Hb.
  pose proof (ratio_positive _ _ (numHorizontalTiles_positive _ Pl)
                (numHorizontalTiles_positive _ Pp)) as Hrx.
  pose proof (ratio_positive _ _ (numVerticalTiles_positive _ Pl)
                (numVerticalTiles_positive _ Pp)) as Hry.
  destruct (child_of_parent_axis _ _ kx a Hrx Hkx Hx Ha) as (Hdx0 & Hdx1 & Ex).
  destruct (child_of_parent_axis _ _ ky b Hry Hky Hy Hb) as (Hdy0 & Hdy1 & Ey).
  assert (Hrange : 0 < Tile.z t < Z.of_nat (List.length (levelList g))).
  { unfold at_index in Hl, Hp.
    destruct (Tile.z t <? 0) eqn:E1; [discriminate|apply Z.ltb_ge in E1].
    destruct (Tile.z t - 1 <? 0) eqn:E2; [discriminate|apply Z.ltb_ge in E2].
    assert (Hsome : nth_error (levelList g) (Z.to_nat (Tile.z t)) <> None)
      by congruence.
    apply nth_error_Some in Hsome. lia. }
  unfold EquirectTile.parent, EquirectTile.level_at.
  destruct (Tile.z t =? 0) eqn:E; [apply Z.eqb_eq in E; contradiction|].
  rewrite Hl, Hp. cbn [Js.bind].
  do 3 eexists. split; [reflexivity|].
  unfold EquirectTile.children, EquirectTile.level_at. cbn [Tile.z].
  destruct (Tile.z t - 1 =? _) eqn:E1; [apply Z.eqb_eq in E1; lia|].
  replace (Tile.z t - 1 + 1) with (Tile.z t) by lia.
  rewrite Hl, Hp. cbn [Js.bind app Tile.x Tile.y].
  split; [reflexivity|]. split.
  - apply in_flat_map. exists (a mod kx). split.
    + apply for_indices_spec. split; assumption.
    + apply (in_map _ _ (b mod ky)). apply for_indices_spec.
      split; [exact Hdy0|exact Hdy1].
  - unfold Tile.equals. cbn [Tile.x Tile.y Tile.z].
    rewrite !andb_true_iff, !Qeq_bool_iff, Z.eqb_eq.
    unfold ratio_x, ratio_y in *. repeat split; [exact Ey|exact Ex].
Qed.

Lemma tile_is_child_of_its_parent_witness :
  exists p cs c,
    EquirectTile.parent (geometry_of levels_tripling) (tile 4 2 1)
    = Js.Return (Some p) /\
    EquirectTile.children (geometry_of levels_tripling) p None
    = Js.Return (Some cs) /\
    In c cs /\ Tile.equals c (tile 4 2 1) = true.
Proof.
  apply (tile_is_child_of_its_parent (geometry_of levels_tripling) (tile 4 2 1)
           (Level.create 1 (props 1536 1536 256 256))
           (Level.create 0 (props 512 512 256 256)) 4 2).
  - apply positiveb_sound. vm_compute. reflexivity.
  - apply positiveb_sound. vm_compute. reflexivity.
  - simpl. lia.
  - reflexivity.
  - reflexivity.
  - exists 3. reflexivity.
  - exists 3. reflexivity.
  - reflexivity.
  - lia.
  - reflexivity.
  - lia.
Defined.

(** *** Neighbours: the cache and the grid *)

(** What is pushed by one turn of the loop. *)
Lemma candidate_Some_inv (numX numY : Z) (k u : Tile.t) (offset : Z * Z) :
  EquirectTile.neighbor_candidate numX numY k offset = Some u ->
  u = Tile.mk (wrap_column numX (Tile.x k + inject_Z (fst offset)))
              (Tile.y k + inject_Z (snd offset)) (Tile.z k) /\
  (0 <= Tile.y k + inject_Z (snd offset))%Q /\
  (Tile.y k + inject_Z (snd offset) <= inject_Z numY)%Q.
Proof.
  intro H.
  destruct (Qlt_le_dec (Tile.y k + inject_Z (snd offset)) 0) as [Hlt|Hge].
  - rewrite candidate_omitted in H by (left; exact Hlt). discriminate.
  - destruct (Qlt_le_dec (inject_Z numY) (Tile.y k + inject_Z (snd offset)))
      as [Hgt|Hle].
    + rewrite candidate_omitted in H by (right; exact Hgt). discriminate.
    + rewrite candidate_pushed in H by assumption.
      injection H as <-. auto.
Qed.

(** The entries of a computed list are the pushed candidates. *)
Lemma compute_neighbors_In (level : Level.t) (k u : Tile.t) :
  In u (EquirectTile.compute_neighbors level k) <->
  exists offset,
    In offset neighborOffsets /\
    EquirectTile.neighbor_candidate
      (Level.numHorizontalTiles level - 1)
      (Level.numVerticalTiles level - 1) k offset = Some u.
Proof.
  rewrite compute_neighbors_candidates. unfold neighborOffsets.
  rewrite !in_app_iff. split.
  - intros [H|[H|[H|H]]];
      match type of H with
      | In _ (option_list (EquirectTile.neighbor_candidate _ _ _ ?o)) =>
          exists o;
          destruct (EquirectTile.neighbor_candidate _ _ k o) as [v|] eqn:E;
          [destruct H as [<-|[]]; split; [simpl; tauto|reflexivity]
          |destruct H]
      end.
  - intros (o & Ho & Hc). simpl in Ho.
    destruct Ho as [<-|[<-|[<-|[<-|[]]]]]; rewrite Hc; simpl; tauto.
Qed.

Lemma wrap_column_range (numX : Z) (a : Q) :
  0 <= numX ->
  (0 <= wrap_column numX a)%Q /\ (wrap_column numX a <= inject_Z numX)%Q.
Proof.
  intro Hn. assert (H0 : (0 <= inject_Z numX)%Q) by (rewrite <- (Zle_Qle 0); lia).
  unfold wrap_column.
  qle_case 0%Q a Ea.
  - qle_case a (inject_Z numX) Fa; split; Lqa.lra.
  - qle_case (inject_Z numX) (inject_Z numX) Fa; split; Lqa.lra.
Qed.

(** X8.  Whatever tile [neighbors] is asked about (its column and row may
    lie outside the level), in a level with at least one tile column
    every tile it returns lies inside the level: column in
    [0, tileColumns - 1], row in [0, tileRows - 1], at the level of the
    tile. *)
Theorem neighbors_inside_level (g : Geometry.t) (t : Tile.t) (level : Level.t) :
  coherent g ->
  EquirectTile._level g t = Some level ->
  0 < Level.numHorizontalTiles level ->
  exists res g',
    EquirectTile.neighbors g t = Js.Return (res, g') /\
    Forall (fun u =>
              (0 <= Tile.x u)%Q /\
              (Tile.x u <= inject_Z (Level.numHorizontalTiles level - 1))%Q /\
              (0 <= Tile.y u)%Q /\
              (Tile.y u <= inject_Z (Level.numVerticalTiles level - 1))%Q /\
              Tile.z u = Tile.z t)
           res.
Proof.
  intros Hcoh Hlevel HN.
  destruct (neighbors_returns g t level Hcoh Hlevel)
    as (res & g' & k & Hret & Hsame & Hres & _ & _).
  exists res, g'. split; [exact Hret|]. subst res.
  apply Forall_forall. intros u Hu.
  apply compute_neighbors_In in Hu. destruct Hu as (o & _ & Hc).
  apply candidate_Some_inv in Hc. destruct Hc as (-> & Hy0 & Hy1).
  cbn [Tile.x Tile.y Tile.z].
  destruct (wrap_column_range (Level.numHorizontalTiles level - 1)
              (Tile.x k + inject_Z (fst o))) as [Hx0 Hx1]; [lia|].
  destruct Hsame as (_ & _ & Hz). auto.
Qed.

Lemma neighbors_inside_level_witness :
  exists res g',
    EquirectTile.neighbors (geometry_of levels_three_wide) (tile 7 (-1) 0)
    = Js.Return (res, g') /\
    Forall (fun u =>
              (0 <= Tile.x u)%Q /\
              (Tile.x u <= inject_Z (Level.numHorizontalTiles
                                       (Level.create 0 (props 1536 512 512 512)) - 1))%Q /\
              (0 <= Tile.y u)%Q /\
              (Tile.y u <= inject_Z (Level.numVerticalTiles
                                       (Level.create 0 (props 1536 512 512 512)) - 1))%Q /\
              Tile.z u = Tile.z (tile 7 (-1) 0))
           res.
Proof.
  apply (neighbors_inside_level (geometry_of levels_three_wide) (tile 7 (-1) 0)
           (Level.create 0 (props 1536 512 512 512))).
  - apply geometry_of_coherent.
  - reflexivity.
  - vm_compute. reflexivity.
Defined.

(** Tile objects with the same address have the same candidates, up to
    the address. *)
Lemma candidate_same_address (numX numY : Z) (k t : Tile.t) (offset : Z * Z) :
  same_address k t ->
  Forall2 same_address
          (option_list (EquirectTile.neighbor_candidate numX numY k offset))
          (option_list (EquirectTile.neighbor_candidate numX numY t offset)).
Proof.
  intros (Hx & Hy & Hz).
  destruct (Qlt_le_dec (Tile.y t + inject_Z (snd offset)) 0) as [Hlt|Hge].
  - rewrite !candidate_omitted; [constructor| |]; left; Lqa.lra.
  - destruct (Qlt_le_dec (inject_Z numY) (Tile.y t + inject_Z (snd offset)))
      as [Hgt|Hle].
    + rewrite !candidate_omitted; [constructor| |]; right; Lqa.lra.
    + rewrite !candidate_pushed by Lqa.lra.
      repeat constructor; cbn [Tile.x Tile.y Tile.z]; try assumption.
      * apply wrap_column_comp. now rewrite Hx.
      * now rewrite Hy.
Qed.

Lemma compute_neighbors_same_address (level : Level.t) (k t : Tile.t) :
  same_address k t ->
  Forall2 same_address (EquirectTile.compute_neighbors level k)
                       (EquirectTile.compute_neighbors level t).
Proof.
  intro H. rewrite !compute_neighbors_candidates.
  repeat apply Forall2_app; now apply candidate_same_address.
Qed.

(** X9.  The cache never changes the answer: in every coherent state,
    the list [neighbors] returns for a tile of an existing level has,
    entry by entry, the addresses of the list the loop computes for that
    tile; the call leaves the level list as it is and the cache
    coherent. *)
Theorem neighbors_cache_transparent (g : Geometry.t) (t : Tile.t)
        (level : Level.t) :
  coherent g ->
  EquirectTile._level g t = Some level ->
  exists res g',
    EquirectTile.neighbors g t = Js.Return (res, g') /\
    Forall2 same_address res (EquirectTile.compute_neighbors level t) /\
    levelList g' = levelList g /\
    coherent g'.
Proof.
  intros Hcoh Hlevel.
  destruct (neighbors_returns g t level Hcoh Hlevel)
    as (res & g' & k & Hret & Hsame & Hres & Hlist & Hcoh').
  exists res, g'. subst res.
  auto using compute_neighbors_same_address.
Qed.

Lemma neighbors_cache_transparent_witness :
  exists res g',
    EquirectTile.neighbors (geometry_of levels_three_wide) (tile 2 0 0)
    = Js.Return (res, g') /\
    Forall2 same_address res
            (EquirectTile.compute_neighbors
               (Level.create 0 (props 1536 512 512 512)) (tile 2 0 0)) /\
    levelList g' = levelList (geometry_of levels_three_wide) /\
    coherent g'.
Proof.
  apply (neighbors_cache_transparent (geometry_of levels_three_wide)
           (tile 2 0 0) (Level.create 0 (props 1536 512 512 512))).
  - apply geometry_of_coherent.
  - reflexivity.
Defined.

Lemma lookup_head (k : Tile.t) (v : list Tile.t) (t : Tile.t)
      (es : list (Tile.t * list Tile.t)) :
  Tile.equals k t = true -> LruMap.lookup t ((k, v) :: es) = Some (k, v).
Proof. intro H. simpl. now rewrite H. Qed.

(** X10.  A call of [neighbors] that returns is answered from the cache
    when it is repeated: with a cache of capacity at least 1, the next
    call on the same tile returns the very same list, without looking at
    the level. *)
Theorem neighbors_repeated_call (g : Geometry.t) (t : Tile.t)
        (res : list Tile.t) (g' : Geometry.t) :
  (1 <= LruMap.capacity (_neighborsCache g))%nat ->
  EquirectTile.neighbors g t = Js.Return (res, g') ->
  exists k g'',
    LruMap.lookup t (LruMap.entries (_neighborsCache g')) = Some (k, res) /\
    EquirectTile.neighbors g' t = Js.Return (res, g'').
Proof.
  intros Hcap. unfold EquirectTile.neighbors at 1. unfold LruMap.get.
  destruct (LruMap.lookup t (LruMap.entries (_neighborsCache g)))
    as [[k0 v0]|] eqn:El.
  - intros [= <- <-]. apply lookup_Some in El. destruct El as [_ He].
    unfold EquirectTile.neighbors, LruMap.get. cbn [_neighborsCache with_cache
      LruMap.entries]. rewrite (lookup_head k0 v0 t _ He).
    eexists _, _. split; reflexivity.
  - unfold EquirectTile.the_level.
    destruct (EquirectTile._level g t) as [level|]; [|discriminate].
    cbn [Js.bind]. intros [= <- <-].
    unfold EquirectTile.neighbors, LruMap.get, LruMap.set.
    cbn [_neighborsCache with_cache LruMap.entries LruMap.capacity].
    destruct (LruMap.capacity (_neighborsCache g)) as [|c]; [lia|].
    cbn [firstn].
    rewrite (lookup_head t _ t _ (proj2 (equals_same_address t t)
                                    (conj (Qeq_refl _) (conj (Qeq_refl _) eq_refl)))).
    eexists _, _. split; reflexivity.
Qed.

Lemma neighbors_repeated_call_witness :
  exists k g'',
    LruMap.lookup (tile 2 0 0)
      (LruMap.entries
         (_neighborsCache
            (with_cache (geometry_of levels_three_wide)
               (LruMap.set (_neighborsCache (geometry_of levels_three_wide))
                  (tile 2 0 0)
                  (EquirectTile.compute_neighbors
                     (Level.create 0 (props 1536 512 512 512)) (tile 2 0 0))))))
    = Some (k, EquirectTile.compute_neighbors
                 (Level.create 0 (props 1536 512 512 512)) (tile 2 0 0)) /\
    EquirectTile.neighbors
      (with_cache (geometry_of levels_three_wide)
         (LruMap.set (_neighborsCache (geometry_of levels_three_wide))
            (tile 2 0 0)
            (EquirectTile.compute_neighbors
               (Level.create 0 (props 1536 512 512 512)) (tile 2 0 0))))
      (tile 2 0 0)
    = Js.Return (EquirectTile.compute_neighbors
                   (Level.create 0 (props 1536 512 512 512)) (tile 2 0 0), g'').
Proof.
  apply (neighbors_repeated_call (geometry_of levels_three_wide) (tile 2 0 0)).
  - simpl. unfold neighborsCacheSize. lia.
  - reflexivity.
Defined.

(** One step there and one step back along an offset and its opposite,
    for a tile with integer column and row inside the grid. *)
Lemma candidate_back (numX numY : Z) (k t u k' : Tile.t) (a b : Z)
      (offset : Z * Z) :
  same_address k t ->
  (Tile.x t == inject_Z a)%Q -> 0 <= a <= numX ->
  (Tile.y t == inject_Z b)%Q -> 0 <= b <= numY ->
  In offset neighborOffsets ->
  EquirectTile.neighbor_candidate numX numY k offset = Some u ->
  same_address k' u ->
  exists t',
    EquirectTile.neighbor_candidate numX numY k'
      (- fst offset, - snd offset) = Some t' /\
    same_address t' t.
Proof.
  intros (Hkx & Hky & Hkz) Hx Ha Hy Hb Ho Hc (Hux & Huy & Huz).
  apply candidate_Some_inv in Hc. destruct Hc as (-> & Hy0 & Hy1).
  cbn [Tile.x Tile.y Tile.z] in *.
  assert (Qa0 : (inject_Z 0 <= inject_Z a)%Q) by (rewrite <- Zle_Qle; lia).
  assert (Qa1 : (inject_Z a <= inject_Z numX)%Q) by (rewrite <- Zle_Qle; lia).
  assert (Qb0 : (inject_Z 0 <= inject_Z b)%Q) by (rewrite <- Zle_Qle; lia).
  assert (Qb1 : (inject_Z b <= inject_Z numY)%Q) by (rewrite <- Zle_Qle; lia).
  change (inject_Z 0) with 0%Q in *.
  assert (Hwrap :
            (wrap_column numX
               (wrap_column numX (Tile.x k + inject_Z (fst offset)) +
                inject_Z (- fst offset)) == inject_Z a)%Q).
  { simpl in Ho. destruct Ho as [<-|[<-|[<-|[<-|[]]]]]; cbn [fst snd Z.opp].
    - change (inject_Z 0) with 0%Q.
      rewrite (wrap_column_comp numX _ (inject_Z a)).
      + apply wrap_column_inside; Lqa.lra.
      + rewrite (wrap_column_inside numX (Tile.x k + 0)) by Lqa.lra. Lqa.lra.
    - change (inject_Z 1) with 1%Q. change (inject_Z (-1)) with (-1 # 1)%Q.
      destruct (Z.eq_dec a numX) as [->|Hne].
      + rewrite (wrap_column_comp numX _ (0 - 1)).
        * apply wrap_column_before_first; [lia|reflexivity].
        * rewrite (wrap_column_past_last numX (Tile.x k + 1)); [reflexivity|lia|].
          Lqa.lra.
      + assert (Q1 : (inject_Z (a + 1) <= inject_Z numX)%Q)
          by (rewrite <- Zle_Qle; lia).
        rewrite inject_Z_plus in Q1. change (inject_Z 1) with 1%Q in Q1.
        rewrite (wrap_column_comp numX _ (inject_Z a)).
        * apply wrap_column_inside; Lqa.lra.
        * rewrite (wrap_column_inside numX (Tile.x k + 1)) by Lqa.lra. Lqa.lra.
    - change (inject_Z 0) with 0%Q. change (inject_Z (- 0)) with 0%Q.
      rewrite (wrap_column_comp numX _ (inject_Z a)).
      + apply wrap_column_inside; Lqa.lra.
      + rewrite (wrap_column_inside numX (Tile.x k + 0)) by Lqa.lra. Lqa.lra.
    - change (inject_Z (-1)) with (-1 # 1)%Q. change (inject_Z 1) with 1%Q.
      destruct (Z.eq_dec a 0) as [->|Hne].
      + change (inject_Z 0) with 0%Q in *.
        rewrite (wrap_column_comp numX _ (inject_Z numX + 1)).
        * apply wrap_column_past_last; [lia|reflexivity].
        * rewrite (wrap_column_before_first numX (Tile.x k + (-1 # 1)));
            [reflexivity|lia|]. Lqa.lra.
      + assert (Q1 : (inject_Z 1 <= inject_Z a)%Q) by (rewrite <- Zle_Qle; lia).
        change (inject_Z 1) with 1%Q in Q1.
        rewrite (wrap_column_comp numX _ (inject_Z a)).
        * apply wrap_column_inside; Lqa.lra.
        * rewrite (wrap_column_inside numX (Tile.x k + (-1 # 1))) by Lqa.lra.
          Lqa.lra. }
  assert (Hopp : (inject_Z (- snd offset) == - inject_Z (snd offset))%Q)
    by (rewrite inject_Z_opp; reflexivity).
  rewrite candidate_pushed; cbn [fst snd]; try Lqa.lra.
  eexists. split; [reflexivity|]. repeat split; cbn [Tile.x Tile.y Tile.z].
  - rewrite (wrap_column_comp numX _ _
               (Qplus_comp _ _ Hux _ _ (Qeq_refl _))).
    rewrite Hwrap. now symmetry.
  - Lqa.lra.
  - congruence.
Qed.

Lemma opposite_offset (offset : Z * Z) :
  In offset neighborOffsets ->
  In (- fst offset, - snd offset) neighborOffsets.
Proof.
  unfold neighborOffsets. simpl.
  intros [<-|[<-|[<-|[<-|[]]]]]; simpl; tauto.
Qed.

(** X11.  Adjacency is symmetric: in every coherent state, if a tile with
    integer column and row inside its level has [u] among its
    neighbours, then the neighbours of [u] contain the address of the
    tile. *)
Theorem neighbors_symmetric (g : Geometry.t) (t : Tile.t) (level : Level.t)
        (a b : Z) (res : list Tile.t) (g' : Geometry.t) (u : Tile.t) :
  coherent g ->
  EquirectTile._level g t = Some level ->
  (Tile.x t == inject_Z a)%Q -> 0 <= a <= Level.numHorizontalTiles level - 1 ->
  (Tile.y t == inject_Z b)%Q -> 0 <= b <= Level.numVerticalTiles level - 1 ->
  EquirectTile.neighbors g t = Js.Return (res, g') ->
  In u res ->
  exists res' g'' t',
    EquirectTile.neighbors g' u = Js.Return (res', g'') /\
    In t' res' /\ Tile.equals t' t = true.
Proof.
  intros Hcoh Hlevel Hx Ha Hy Hb Hret Hu.
  destruct (neighbors_returns g t level Hcoh Hlevel)
    as (res1 & g1 & k & Hret1 & Hsame & Hres & Hlist & Hcoh1).
  rewrite Hret in Hret1. injection Hret1 as <- <-. subst res.
  apply compute_neighbors_In in Hu. destruct Hu as (o & Ho & Hc).
  assert (Hzu : Tile.z u = Tile.z t).
  { destruct (candidate_Some_inv _ _ _ _ _ Hc) as (-> & _).
    destruct Hsame as (_ & _ & Hz). exact Hz. }
  assert (Hlevel_u : EquirectTile._level g' u = Some level).
  { unfold EquirectTile._level in *. now rewrite Hlist, Hzu. }
  destruct (neighbors_returns g' u level Hcoh1 Hlevel_u)
    as (res' & g'' & k' & Hret' & Hsame' & Hres' & _ & _).
  destruct (candidate_back _ _ k t u k' a b o Hsame Hx Ha Hy Hb Ho Hc Hsame')
    as (t' & Hc' & Ht').
  exists res', g'', t'. split; [exact Hret'|]. split.
  - subst res'. apply compute_neighbors_In.
    exists (- fst o, - snd o). split; [now apply opposite_offset|exact Hc'].
  - now apply equals_same_address.
Qed.

Lemma neighbors_symmetric_witness :
  exists res' g'' t',
    EquirectTile.neighbors
      (with_cache (geometry_of levels_three_wide)
         (LruMap.set (_neighborsCache (geometry_of levels_three_wide))
            (tile 2 0 0)
            (EquirectTile.compute_neighbors
               (Level.create 0 (props 1536 512 512 512)) (tile 2 0 0))))
      (Tile.mk (wrap_column 2 (inject_Z 2 + inject_Z 1))
               (inject_Z 0 + inject_Z 0) 0)
    = Js.Return (res', g'') /\
    In t' res' /\ Tile.equals t' (tile 2 0 0) = true.
Proof.
  apply (neighbors_symmetric (geometry_of levels_three_wide) (tile 2 0 0)
           (Level.create 0 (props 1536 512 512 512)) 2 0
           (EquirectTile.compute_neighbors
              (Level.create 0 (props 1536 512 512 512)) (tile 2 0 0))).
  - apply geometry_of_coherent.
  - reflexivity.
  - reflexivity.
  - vm_compute. split; discriminate.
  - reflexivity.
  - vm_compute. split; discriminate.
  - reflexivity.
  - vm_compute. left. reflexivity.
Defined.

(** *** Tile sizes *)

(** The number of tiles along an axis, in integer arithmetic. *)
Lemma tiles_ceil_div (size tile : Z) :
  0 < tile ->
  Qceiling (inject_Z size / inject_Z tile) = - ((- size) / tile).
Proof.
  intro Ht. unfold Qceiling. f_equal.
  rewrite Zdiv_Qdiv. apply Qfloor_comp.
  rewrite inject_Z_opp. field. apply inject_Z_nonzero. lia.
Qed.

(** The edge tile fills what the full tiles leave. *)
Lemma edge_tile_fills (size tile : Z) :
  0 < size -> 0 < tile ->
  0 < EquirectTile.or_else (Js.modulo size tile) tile <= tile /\
  (Qceiling (inject_Z size / inject_Z tile) - 1) * tile +
  EquirectTile.or_else (Js.modulo size tile) tile = size.
Proof.
  intros Hs Ht. rewrite tiles_ceil_div by exact Ht.
  unfold EquirectTile.or_else, Js.modulo.
  pose proof (Z.mod_pos_bound size tile Ht) as Hm.
  pose proof (Z.div_mod size tile ltac:(lia)) as Hd.
  destruct (size mod tile =? 0) eqn:E;
    [apply Z.eqb_eq in E|apply Z.eqb_neq in E].
  - rewrite Z.div_opp_l_z by lia. split; lia.
  - rewrite Z.div_opp_l_nz by lia. split; lia.
Qed.

(** X12.  In a level of positive dimensions a tile is never empty and
    never larger than the tile size of the level, and the tile of the
    last column (row) is exactly as wide (high) as what the full tiles
    before it leave of the level. *)
Theorem tile_size_bounds (g : Geometry.t) (t : Tile.t) (level : Level.t) :
  EquirectTile._level g t = Some level ->
  Level.positive level ->
  exists w h,
    EquirectTile.width g t = Js.Return w /\
    EquirectTile.height g t = Js.Return h /\
    0 < w <= Level.tileWidth level /\
    0 < h <= Level.tileHeight level /\
    ((Tile.x t == inject_Z (Level.numHorizontalTiles level - 1))%Q ->
     (Level.numHorizontalTiles level - 1) * Level.tileWidth level + w
     = Level.width level) /\
    ((Tile.y t == inject_Z (Level.numVerticalTiles level - 1))%Q ->
     (Level.numVerticalTiles level - 1) * Level.tileHeight level + h
     = Level.height level).
Proof.
  intros Hlevel (Pw & Ph & Ptw & Pth).
  destruct (edge_tile_fills _ _ Pw Ptw) as [Bw Fw].
  destruct (edge_tile_fills _ _ Ph Pth) as [Bh Fh].
  unfold EquirectTile.width, EquirectTile.height, EquirectTile.the_level.
  rewrite Hlevel. cbn [Js.bind].
  destruct (Qeq_bool (Tile.x t) _) eqn:Ex; destruct (Qeq_bool (Tile.y t) _) eqn:Ey;
    (eexists _, _; split; [reflexivity|]; split; [reflexivity|]);
    try (apply Qeq_bool_neq in Ex); try (apply Qeq_bool_neq in Ey);
    repeat split; try lia; try tauto; intros; assumption.
Qed.

Lemma tile_size_bounds_witness :
  exists w h,
    EquirectTile.width (geometry_of [props 1000 512 512 512]) (tile 1 0 0)
    = Js.Return w /\
    EquirectTile.height (geometry_of [props 1000 512 512 512]) (tile 1 0 0)
    = Js.Return h /\
    0 < w <= Level.tileWidth (Level.create 0 (props 1000 512 512 512)) /\
    0 < h <= Level.tileHeight (Level.create 0 (props 1000 512 512 512)) /\
    ((Tile.x (tile 1 0 0) ==
      inject_Z (Level.numHorizontalTiles
                  (Level.create 0 (props 1000 512 512 512)) - 1))%Q ->
     (Level.numHorizontalTiles (Level.create 0 (props 1000 512 512 512)) - 1) *
     Level.tileWidth (Level.create 0 (props 1000 512 512 512)) + w
     = Level.width (Level.create 0 (props 1000 512 512 512))) /\
    ((Tile.y (tile 1 0 0) ==
      inject_Z (Level.numVerticalTiles
                  (Level.create 0 (props 1000 512 512 512)) - 1))%Q ->
     (Level.numVerticalTiles (Level.create 0 (props 1000 512 512 512)) - 1) *
     Level.tileHeight (Level.create 0 (props 1000 512 512 512)) + h
     = Level.height (Level.create 0 (props 1000 512 512 512))).
Proof.
  apply (tile_size_bounds (geometry_of [props 1000 512 512 512]) (tile 1 0 0)
           (Level.create 0 (props 1000 512 512 512))).
  - reflexivity.
  - apply positiveb_sound. vm_compute. reflexivity.
Defined.

Example edge_tile_width :
  EquirectTile.width (geometry_of [props 1000 512 512 512]) (tile 1 0 0)
  = Js.Return 488.
Proof. reflexivity. Qed.

(** *** The tiles of a level *)

(** With enough fuel the loop [for (i = 0; i <= max; i++)] visits exactly
    the integers from [i] to [max], each once. *)
Lemma for_le_from_spec (fuel : nat) :
  forall (i max : Z),
    max + 1 - i <= Z.of_nat fuel ->
    (forall k, In k (Js.for_le_from fuel i max) <-> i <= k <= max) /\
    NoDup (Js.for_le_from fuel i max) /\
    List.length (Js.for_le_from fuel i max) = Z.to_nat (max + 1 - i).
Proof.
  induction fuel as [|fuel IH]; intros i max Hfuel; simpl.
  - split; [|split]; [intro k; simpl; split; [tauto|lia]|constructor|simpl; lia].
  - destruct (i <=? max) eqn:E; [apply Z.leb_le in E|apply Z.leb_gt in E].
    + destruct (IH (i + 1) max) as (Hin & Hnd & Hlen); [lia|].
      split; [|split].
      * intro k. simpl. split.
        -- intros [<-|Hk]; [lia|]. apply Hin in Hk. lia.
        -- intros Hk. destruct (Z.eq_dec i k); [now left|right].
           apply Hin. lia.
      * constructor; [|exact Hnd]. intro Hi. apply Hin in Hi. lia.
      * simpl. rewrite Hlen. lia.
    + split; [|split]; [intro k; simpl; split; [tauto|lia]|constructor|simpl; lia].
Qed.

Lemma for_upto_spec (max : Z) :
  (forall k, In k (Js.for_upto max) <-> 0 <= k <= max) /\
  NoDup (Js.for_upto max) /\
  List.length (Js.for_upto max) = Z.to_nat (max + 1).
Proof.
  unfold Js.for_upto.
  destruct (for_le_from_spec (Z.to_nat (max + 1)) 0 max) as (H1 & H2 & H3);
    [lia|].
  rewrite Z.sub_0_r in H3. auto.
Qed.

Lemma NoDup_map_injective {A B : Type} (f : A -> B) (l : list A) :
  (forall a a', f a = f a' -> a = a') -> NoDup l -> NoDup (map f l).
Proof.
  intros Hinj Hl. induction Hl as [|a l Ha Hl IH]; simpl; constructor.
  - intro Hin. apply in_map_iff in Hin. destruct Hin as (a' & E & Hin').
    apply Hinj in E. subst a'. contradiction.
  - exact IH.
Qed.

Lemma NoDup_grid {A B C : Type} (f : A -> B -> C) (xs : list A) (ys : list B) :
  (forall x y x' y', f x y = f x' y' -> x = x' /\ y = y') ->
  NoDup xs -> NoDup ys ->
  NoDup (flat_map (fun x => map (f x) ys) xs).
Proof.
  intros Hinj Hxs Hys. induction Hxs as [|x xs Hx Hxs IH]; simpl; [constructor|].
  apply NoDup_app.
  - apply NoDup_map_injective; [|exact Hys].
    intros y y' E. now apply Hinj in E.
  - exact IH.
  - intros c Hc Hc'. apply in_map_iff in Hc. destruct Hc as (y & <- & _).
    apply in_flat_map in Hc'. destruct Hc' as (x' & Hx' & Hc').
    apply in_map_iff in Hc'. destruct Hc' as (y' & E & _).
    apply Hinj in E. destruct E as [-> _]. contradiction.
Qed.

(** X15.  [levelTiles] keeps the elements of [result] in front and appends
    the tiles of the level: one tile for every column in
    [0, tileColumns - 1] and row in [0, tileRows - 1], each exactly once
    and nothing else, all with the position of the level object in the
    level list as their level ([-1] for a level that is not in the
    list). *)
Theorem levelTiles_enumerates_level (g : Geometry.t) (level : Level.t)
        (result : list Tile.t) :
  Level.positive level ->
  let ts := EquirectTileGeometry.levelTiles g level None in
  EquirectTileGeometry.levelTiles g level (Some result) = result ++ ts /\
  (forall u, In u ts <->
             exists col row,
               0 <= col <= Level.numHorizontalTiles level - 1 /\
               0 <= row <= Level.numVerticalTiles level - 1 /\
               u = tile col row (indexOf (levelList g) level)) /\
  NoDup ts /\
  List.length ts =
    Z.to_nat (Level.numHorizontalTiles level * Level.numVerticalTiles level).
Proof.
  intros Hpos ts. subst ts. unfold EquirectTileGeometry.levelTiles. cbn [app].
  pose proof (numHorizontalTiles_positive level Hpos) as HnX.
  pose proof (numVerticalTiles_positive level Hpos) as HnY.
  destruct (for_upto_spec (Level.numHorizontalTiles level - 1)) as (Xin & Xnd & Xlen).
  destruct (for_upto_spec (Level.numVerticalTiles level - 1)) as (Yin & Ynd & Ylen).
  split; [reflexivity|]. split; [|split].
  - intro u. rewrite in_flat_map. split.
    + intros (col & Hcol & Hu). apply in_map_iff in Hu.
      destruct Hu as (row & <- & Hrow).
      exists col, row. rewrite <- Xin, <- Yin. auto.
    + intros (col & row & Hcol & Hrow & ->).
      exists col. rewrite Xin. split; [exact Hcol|].
      apply in_map_iff. exists row. rewrite Yin. auto.
  - apply (NoDup_grid
             (fun x y => Tile.mk (inject_Z x) (inject_Z y)
                                 (indexOf (levelList g) level)));
      [|exact Xnd|exact Ynd].
    intros x y x' y' E. injection E as Ex Ey. auto.
  - rewrite (flat_map_constant_length _
               (Z.to_nat (Level.numVerticalTiles level))).
    + rewrite Xlen. lia.
    + intro x. rewrite length_map, Ylen. f_equal. lia.
Qed.

Lemma levelTiles_enumerates_level_witness :
  let ts := EquirectTileGeometry.levelTiles (geometry_of levels_three_wide)
              (Level.create 0 (props 1536 512 512 512)) None in
  EquirectTileGeometry.levelTiles (geometry_of levels_three_wide)
    (Level.create 0 (props 1536 512 512 512)) (Some [tile 9 9 9])
  = [tile 9 9 9] ++ ts /\
  (forall u, In u ts <->
             exists col row,
               0 <= col <= Level.numHorizontalTiles
                             (Level.create 0 (props 1536 512 512 512)) - 1 /\
               0 <= row <= Level.numVerticalTiles
                             (Level.create 0 (props 1536 512 512 512)) - 1 /\
               u = tile col row
                     (indexOf (levelList (geometry_of levels_three_wide))
                              (Level.create 0 (props 1536 512 512 512)))) /\
  NoDup ts /\
  List.length ts =
    Z.to_nat (Level.numHorizontalTiles (Level.create 0 (props 1536 512 512 512)) *
              Level.numVerticalTiles (Level.create 0 (props 1536 512 512 512))).
Proof.
  apply (levelTiles_enumerates_level (geometry_of levels_three_wide)
           (Level.create 0 (props 1536 512 512 512)) [tile 9 9 9]).
  apply positiveb_sound. vm_compute. reflexivity.
Defined.

Example levelTiles_three_wide :
  EquirectTileGeometry.levelTiles (geometry_of levels_three_wide)
    (Level.create 0 (props 1536 512 512 512)) None
  = [tile 0 0 0; tile 1 0 0; tile 2 0 0].
Proof. reflexivity. Qed.

(** A level object that is not in the list: its tiles get level -1. *)
Example levelTiles_foreign_level :
  EquirectTileGeometry.levelTiles (geometry_of levels_three_wide)
    (Level.create 5 (props 512 512 512 512)) None
  = [tile 0 0 (-1)].
Proof. reflexivity. Qed.

(** *** The closest tile: inside the level *)

Lemma clamp_range (v hi : Z) : 0 <= hi -> 0 <= Js.clamp v 0 hi <= hi.
Proof. intro H. unfold Js.clamp. lia. Qed.



Lemma floorR_bounds (r : R) :
  (IZR (EquirectTileGeometry.floorR r) <= r < IZR (EquirectTileGeometry.floorR r) + 1)%R.
Proof.
  unfold EquirectTileGeometry.floorR.
  destruct (base_Int_part r) as [H1 H2]. split; Lra.lra.
Qed.

Lemma Q2R_inject_Z (z : Z) : Q2R (inject_Z z) = IZR z.
Proof. unfold Q2R. simpl. rewrite Rinv_1. apply Rmult_1_r. Qed.

Lemma Q2R_ratio (a b : Z) :
  b <> 0 -> Q2R (inject_Z a / inject_Z b) = (IZR a / IZR b)%R.
Proof.
  intro Hb. rewrite Q2R_div by (now apply inject_Z_nonzero).
  now rewrite !Q2R_inject_Z.
Qed.

(** The number of tiles along an axis, seen from the reals. *)
Lemma tiles_real_bounds (size tile : Z) :
  0 < tile ->
  (IZR (Qceiling (inject_Z size / inject_Z tile) - 1) < IZR size / IZR tile
   <= IZR (Qceiling (inject_Z size / inject_Z tile)))%R.
Proof.
  intro Ht. rewrite <- (Q2R_ratio size tile) by lia.
  rewrite <- !Q2R_inject_Z. split.
  - apply Qlt_Rlt. apply Qceiling_lt.
  - apply Qle_Rle. apply Qle_ceiling.
Qed.

(** X19.  No wrap-around at the poles: for a level of positive dimensions,
    a view whose pitch is [pi/2] or more gets a closest tile in row 0, and
    a view whose pitch is [-pi/2] or less gets one in the last row,
    [tileRows - 1].  Angles are real numbers and the arithmetic is
    exact. *)
Theorem closestTile_clamps_at_poles (g : Geometry.t) (view : View.t)
        (level : Level.t) :
  Level.positive level ->
  ((PI / 2 <= View.pitch view)%R ->
   Tile.y (EquirectTileGeometry._closestTile g view level) = inject_Z 0) /\
  ((View.pitch view <= - (PI / 2))%R ->
   Tile.y (EquirectTileGeometry._closestTile g view level)
   = inject_Z (Level.numVerticalTiles level - 1)).
Proof.
  intros (Pw & Ph & Ptw & Pth). pose proof PI_RGT_0 as HPI.
  pose proof (tiles_positive _ _ Ph Pth) as HnY.
  destruct (tiles_real_bounds (Level.height level) (Level.tileHeight level) Pth)
    as [Hlast _].
  assert (HS : (0 < IZR (Level.height level))%R) by (apply IZR_lt; lia).
  assert (HT : (0 < IZR (Level.tileHeight level))%R) by (apply IZR_lt; lia).
  assert (Hq : (0 < IZR (Level.height level) / IZR (Level.tileHeight level))%R)
    by (now apply Rdiv_lt_0_compat).
  unfold EquirectTileGeometry._closestTile, Level.numVerticalTiles. cbn [Tile.y].
  assert (Ep : (View.pitch view = - (- View.pitch view / PI) * PI)%R)
    by (field; Lra.lra).
  set (v := (- View.pitch view / PI)%R) in *.
  replace ((v + 0.5) * IZR (Level.height level) / IZR (Level.tileHeight level))%R
    with ((v + 0.5) * (IZR (Level.height level) / IZR (Level.tileHeight level)))%R
    by (field; Lra.lra).
  set (q := (IZR (Level.height level) / IZR (Level.tileHeight level))%R) in *.
  destruct (floorR_bounds ((v + 0.5) * q)) as [Hc0 Hc1].
  set (c := EquirectTileGeometry.floorR ((v + 0.5) * q)) in *.
  set (n := Qceiling (inject_Z (Level.height level) /
                      inject_Z (Level.tileHeight level))) in *.
  split; intro Hp; rewrite Ep in Hp; f_equal; unfold Js.clamp.
  - assert (Hle : ((v + 0.5) * q <= 0)%R) by Lra.nra.
    assert (H : (IZR c < IZR 1)%R) by (simpl; Lra.lra).
    apply lt_IZR in H. lia.
  - assert (Hge : (q <= (v + 0.5) * q)%R) by Lra.nra.
    assert (H : (IZR (n - 1) < IZR (c + 1))%R) by (rewrite plus_IZR; Lra.lra).
    apply lt_IZR in H. lia.
Qed.

Lemma closestTile_clamps_at_poles_witness :
  ((PI / 2 <= View.pitch view_at_zenith)%R ->
   Tile.y (EquirectTileGeometry._closestTile
             (geometry_of levels_one_column) view_at_zenith
             (Level.create 0 (props 512 1024 512 256))) = inject_Z 0) /\
  ((View.pitch view_at_zenith <= - (PI / 2))%R ->
   Tile.y (EquirectTileGeometry._closestTile
             (geometry_of levels_one_column) view_at_zenith
             (Level.create 0 (props 512 1024 512 256)))
   = inject_Z (Level.numVerticalTiles
                 (Level.create 0 (props 512 1024 512 256)) - 1)).
Proof.
  apply (closestTile_clamps_at_poles (geometry_of levels_one_column)
           view_at_zenith (Level.create 0 (props 512 1024 512 256))).
  apply positiveb_sound. vm_compute. reflexivity.
Defined.



Example neighbors_interior_row :
  match EquirectTile.neighbors (geometry_of levels_one_column) (tile 0 1 0) with
  | Js.Return (res, _) => List.length res = 4%nat
  | _ => False
  end.
Proof. vm_compute. reflexivity. Qed.
